(** * AioSpotify: the token-lifecycle and request-dispatch core

    A shallow embedding of [aiospotify/errors.py] and of the core of
    [aiospotify/http.py] ([Route], [HTTPClient.request],
    [HTTPClient.authorize], [HTTPClient.destroy]).

    Coroutines are embedded as resumption trees ([Step]): a coroutine runs
    atomically up to its next [await], where it hands the client object back
    and is resumed later with the reply and with the client object as the
    other coroutines left it.  One tree serves two semantics: [Seq.run],
    which drives a single call against scripted servers, and [Loop.exec],
    which interleaves any number of calls on one client.

    Conventions.
    - A naive UTC [datetime] is the number of microseconds since
      0001-01-01T00:00:00, a [Z]; a [timedelta] is a number of microseconds.
    - JSON numbers are integers ([JInt]); floats are outside the model.
    - Strings are ASCII text.
    - [assert] statements are enabled (the interpreter does not run with -O).
    - [asyncio.Lock] is the lock of the standard library: not re-entrant, and
      accepted with a [loop] argument (Python before 3.10).
    - [aiohttp] refuses to send on a closed session ([RuntimeError]); a
      body that is not JSON makes [response.json()] raise ([JSONError] stands
      for the exception, whichever it is). *)

From Stdlib Require Import ZArith List String Ascii Bool Lia DecimalString.
Import ListNotations.

Local Open Scope string_scope.
Local Open Scope Z_scope.

#[local] Set Warnings "-register-all".

(** ** Parsed JSON values and the Python operations the code applies to them *)

Module Py.

(** What [response.json()] yields.  A dict is an association list in
    insertion order; keys are unique after parsing. *)
Inductive Json : Type :=
| JNull
| JBool (b : bool)
| JInt (z : Z)
| JStr (s : string)
| JList (l : list Json)
| JDict (d : list (string * Json)).

(** errors.py 29-83 and the built-in exceptions the core can let escape. *)
Inductive HTTPKind : Type :=
| KHTTPException
| KInvalidClientCredentials
| KForbidden
| KNotFound
| KServerError.

Inductive Exn : Type :=
| NotAuthorized (msg : string)
| HTTPError (k : HTTPKind) (msg : string)
| AttributeError (attr : string)
| KeyError (key : string)
| TypeError
| RuntimeError (msg : string)
| UnicodeEncodeError
| OverflowError
| JSONError.

Inductive Outcome (A : Type) : Type :=
| Returned (a : A)
| Raised (e : Exn).
Arguments Returned {A} a.
Arguments Raised {A} e.

Definition obind {A B} (o : Outcome A) (f : A -> Outcome B) : Outcome B :=
  match o with
  | Returned a => f a
  | Raised e => Raised e
  end.

Fixpoint assoc (k : string) (d : list (string * Json)) : option Json :=
  match d with
  | [] => None
  | (k', v) :: d' => if String.eqb k k' then Some v else assoc k d'
  end.

(** [v[key]] for a string key: only a dict accepts it. *)
Definition getitem (v : Json) (key : string) : Outcome Json :=
  match v with
  | JDict d =>
      match assoc key d with
      | Some x => Returned x
      | None => Raised (KeyError key)
      end
  | _ => Raised TypeError
  end.

(** [d.get(key)] on a dict: the value, or [None]. *)
Definition dict_get (d : list (string * Json)) (key : string) : Json :=
  match assoc key d with
  | Some x => x
  | None => JNull
  end.

Definition is_not_None (v : Json) : bool :=
  match v with
  | JNull => false
  | _ => true
  end.

Definition str_of_int (z : Z) : string := NilZero.string_of_int (Z.to_int z).

Definition dquote : ascii := ascii_of_nat 34.
Definition squote : ascii := ascii_of_nat 39.
Definition backslash : ascii := ascii_of_nat 92.

Fixpoint mem_char (c : ascii) (s : string) : bool :=
  match s with
  | EmptyString => false
  | String c' s' => Ascii.eqb c c' || mem_char c s'
  end.

Definition hex_digit (n : nat) : ascii :=
  if Nat.ltb n 10 then ascii_of_nat (48 + n) else ascii_of_nat (87 + n).

Definition escape_char (q c : ascii) : string :=
  let n := nat_of_ascii c in
  if Ascii.eqb c backslash then String backslash (String backslash EmptyString)
  else if Ascii.eqb c q then String backslash (String q EmptyString)
  else if Nat.eqb n 10 then String backslash "n"
  else if Nat.eqb n 13 then String backslash "r"
  else if Nat.eqb n 9 then String backslash "t"
  else if Nat.ltb n 32 || Nat.eqb n 127 then
    String backslash
      (String "x" (String (hex_digit (Nat.div n 16))
                 (String (hex_digit (Nat.modulo n 16)) EmptyString)))
  else String c EmptyString.

Fixpoint escape (q : ascii) (s : string) : string :=
  match s with
  | EmptyString => EmptyString
  | String c s' => escape_char q c ++ escape q s'
  end.

(** [repr] of a [str]: single quotes, unless the text has a single quote and
    no double quote. *)
Definition repr_str (s : string) : string :=
  let q := if mem_char squote s && negb (mem_char dquote s) then dquote else squote in
  String q (escape q s ++ String q EmptyString).

Fixpoint join (sep : string) (l : list string) : string :=
  match l with
  | [] => EmptyString
  | [x] => x
  | x :: l' => x ++ sep ++ join sep l'
  end.

Fixpoint repr (v : Json) : string :=
  match v with
  | JNull => "None"
  | JBool true => "True"
  | JBool false => "False"
  | JInt z => str_of_int z
  | JStr s => repr_str s
  | JList l => "[" ++ join ", " (map repr l) ++ "]"
  | JDict d =>
      "{" ++ join ", " (map (fun kv => repr_str (fst kv) ++ ": " ++ repr (snd kv)) d) ++ "}"
  end.

(** [str(v)], as an f-string renders a value. *)
Definition str (v : Json) : string :=
  match v with
  | JStr s => s
  | _ => repr v
  end.

Fixpoint is_ascii (s : string) : bool :=
  match s with
  | EmptyString => true
  | String c s' => Nat.ltb (nat_of_ascii c) 128 && is_ascii s'
  end.

(** [s.encode("ascii")]. *)
Definition encode_ascii (s : string) : Outcome (list nat) :=
  if is_ascii s then Returned (map nat_of_ascii (list_ascii_of_string s))
  else Raised UnicodeEncodeError.

Definition b64_alphabet : string :=
  "ABCDEFGHIJKLMNOPQRSTUVWXYZabcdefghijklmnopqrstuvwxyz0123456789+/".

Definition b64_char (n : nat) : ascii :=
  match String.get n b64_alphabet with
  | Some c => c
  | None => "="%char
  end.

(** [base64.b64encode(bytes).decode("ascii")]. *)
Fixpoint b64encode (l : list nat) : string :=
  match l with
  | [] => EmptyString
  | [a] =>
      String (b64_char (Nat.div a 4))
        (String (b64_char (Nat.modulo a 4 * 16)) "==")
  | [a; b] =>
      String (b64_char (Nat.div a 4))
        (String (b64_char (Nat.modulo a 4 * 16 + Nat.div b 16))
           (String (b64_char (Nat.modulo b 16 * 4)) "="))
  | a :: b :: c :: r =>
      String (b64_char (Nat.div a 4))
        (String (b64_char (Nat.modulo a 4 * 16 + Nat.div b 16))
           (String (b64_char (Nat.modulo b 16 * 4 + Nat.div c 64))
              (String (b64_char (Nat.modulo c 64)) (b64encode r))))
  end.

End Py.
Import Py.

(** ** errors.py *)

Module Errors.

(** errors.py 38-39: [NotAuthorized.__init__(self, message)]. *)
Definition NotAuthorized_init (message : string) : Exn := NotAuthorized message.

(** errors.py 45-57: [HTTPException.__init__(self, data, status_code, message)].
    The result is the text handed to [Exception.__init__]; building it can
    itself raise.  Line 49 binds [desc] to the value of
    [data.get("error_description") is not None], a bool. *)
Definition HTTPException_init (data : Json) (status_code : Z)
    (message : option string) : Outcome string :=
  obind (getitem data "error") (fun err =>
  let fmt := str_of_int status_code ++ " " ++ str err in
  let d := match data with JDict d => d | _ => [] end in
  let desc := is_not_None (dict_get d "error_description") in
  obind (if desc
         then Returned (fmt ++ ": " ++ str (JBool desc))
         else obind (getitem err "message") (fun m =>
              Returned (fmt ++ ": " ++ str m))) (fun fmt =>
  match message with
  | Some m => Returned (fmt ++ " (" ++ m ++ ")")
  | None => Returned fmt
  end)).

(** [raise K(data, status)] for a subclass [K] of [HTTPException]: none of
    the subclasses overrides [__init__] (errors.py 60-83). *)
Definition raise_http {A} (k : HTTPKind) (data : Json) (status_code : Z) : Outcome A :=
  match HTTPException_init data status_code None with
  | Returned fmt => Raised (HTTPError k fmt)
  | Raised e => Raised e
  end.

End Errors.
Import Errors.

(** ** http.py: the client object, coroutines and the two coroutine bodies *)

Module HTTP.

Definition PARAMS : Type := list (string * Json).

(** http.py 64-73. *)
Record Route : Type := mkRoute {
  path : string;
  method : string;
  url : string;
  params : option PARAMS
}.

Definition BASE : string := "https://api.spotify.com/v1/".
Definition ACCOUNT_BASE : string := "https://accounts.spotify.com/api/".

(** [Route.__init__]: [params if params else None] drops an empty dict. *)
Definition Route_init (method path : string) (params : option PARAMS) : Route :=
  {| path := path;
     method := method;
     url := BASE ++ path;
     params := match params with
               | Some ((_ :: _) as p) => Some p
               | _ => None
               end |}.

(** The part of [aiohttp.ClientSession] the core looks at. *)
Record ClientSession : Type := { closed : bool }.

(** An [HTTPClient] instance.  [_session], [_access_token] and [_expires_at]
    are attributes set by assignment only (http.py 83-86 declares them for the
    type checker): [None] is "the attribute does not exist".  [self.lock] and
    [self.loop] never change; the state of the lock belongs to the event
    loop (see [Acquire] and [Release] below). *)
Record HTTPClient : Type := mkClient {
  client_id : string;
  client_secret : string;
  _session : option ClientSession;
  _access_token : option Json;
  _expires_at : option Z
}.

(** http.py 88-95. *)
Definition HTTPClient_init (client_id client_secret : string) : HTTPClient :=
  {| client_id := client_id;
     client_secret := client_secret;
     _session := None;
     _access_token := None;
     _expires_at := None |}.

Definition set_session (s : ClientSession) (c : HTTPClient) : HTTPClient :=
  {| client_id := client_id c; client_secret := client_secret c;
     _session := Some s;
     _access_token := _access_token c; _expires_at := _expires_at c |}.

Definition set_access_token (t : Json) (c : HTTPClient) : HTTPClient :=
  {| client_id := client_id c; client_secret := client_secret c;
     _session := _session c;
     _access_token := Some t; _expires_at := _expires_at c |}.

Definition set_expires_at (e : Z) (c : HTTPClient) : HTTPClient :=
  {| client_id := client_id c; client_secret := client_secret c;
     _session := _session c;
     _access_token := _access_token c; _expires_at := Some e |}.

(** What goes on the wire: the coroutine suspends until the response is in. *)
Inductive HttpCall : Type :=
| POST (url : string) (authorization : string) (data : list (string * string))
| REQUEST (method url : string) (authorization : string) (params : option PARAMS).

(** A response: its status and what [response.json()] makes of its body
    ([None]: the body is not JSON and [json()] raises). *)
Record Response : Type := mkResponse {
  status : Z;
  json : option Json
}.

Inductive Level : Type := DEBUG | ERROR | CRITICAL.

(** Effects that do not suspend the coroutine. *)
Inductive Note : Type :=
| NewSession
| Log (lvl : Level) (fmt : string) (args : list Json).

(** A coroutine, run up to its next suspension point.
    - [Done o c]: finished with [o], leaving the client as [c];
    - [Spent c]: the unfolding depth of the model is used up;
    - [Utcnow k]: [datetime.datetime.utcnow()];
    - [Emit n k]: a logging call or the creation of a session;
    - [AwaitHttp h c k]: suspended on a network call, client left as [c];
      resumed with the response and the client as it is by then;
    - [Acquire c k]: [await self.lock.acquire()]; a free lock is taken on
      the spot, otherwise the coroutine is suspended until the lock is free;
    - [Release k]: [self.lock.release()], which never suspends;
    - [AwaitClose c k]: suspended in [session.close()]. *)
Inductive Step (A : Type) : Type :=
| Done (o : Outcome A) (c : HTTPClient)
| Spent (c : HTTPClient)
| Utcnow (k : Z -> Step A)
| Emit (n : Note) (k : Step A)
| AwaitHttp (h : HttpCall) (c : HTTPClient) (k : Response -> HTTPClient -> Step A)
| Acquire (c : HTTPClient) (k : HTTPClient -> Step A)
| Release (k : Step A)
| AwaitClose (c : HTTPClient) (k : HTTPClient -> Step A).
Arguments Done {A} o c.
Arguments Spent {A} c.
Arguments Utcnow {A} k.
Arguments Emit {A} n k.
Arguments AwaitHttp {A} h c k.
Arguments Acquire {A} c k.
Arguments Release {A} k.
Arguments AwaitClose {A} c k.

(** A coroutine body: from the client object as it is when the body starts. *)
Definition Coro (A : Type) : Type := HTTPClient -> Step A.

Fixpoint bind_step {A B} (t : Step A) (f : A -> Coro B) : Step B :=
  match t with
  | Done (Returned a) c => f a c
  | Done (Raised e) c => Done (Raised e) c
  | Spent c => Spent c
  | Utcnow k => Utcnow (fun z => bind_step (k z) f)
  | Emit n k => Emit n (bind_step k f)
  | AwaitHttp h c k => AwaitHttp h c (fun r c' => bind_step (k r c') f)
  | Acquire c k => Acquire c (fun c' => bind_step (k c') f)
  | Release k => Release (bind_step k f)
  | AwaitClose c k => AwaitClose c (fun c' => bind_step (k c') f)
  end.

Definition bind {A B} (m : Coro A) (f : A -> Coro B) : Coro B :=
  fun c => bind_step (m c) f.

Definition ret {A} (a : A) : Coro A := fun c => Done (Returned a) c.
Definition raise {A} (e : Exn) : Coro A := fun c => Done (Raised e) c.
Definition lift {A} (o : Outcome A) : Coro A := fun c => Done o c.
Definition self : Coro HTTPClient := fun c => Done (Returned c) c.
Definition update (f : HTTPClient -> HTTPClient) : Coro unit :=
  fun c => Done (Returned tt) (f c).
Definition utcnow : Coro Z := fun c => Utcnow (fun z => Done (Returned z) c).
Definition emit (n : Note) : Coro unit := fun c => Emit n (Done (Returned tt) c).
Definition await_http (h : HttpCall) : Coro Response :=
  fun c => AwaitHttp h c (fun r c' => Done (Returned r) c').

Declare Scope coro_scope.
Delimit Scope coro_scope with coro.
Notation "x <- m ;; k" := (bind m (fun x => k))
  (at level 61, m at next level, right associativity) : coro_scope.
Notation "m ;;; k" := (bind m (fun _ => k))
  (at level 61, right associativity) : coro_scope.
Local Open Scope coro_scope.

(** [getattr(self, name)] for the three late attributes. *)
Definition get_session : Coro ClientSession :=
  c <- self ;;
  match _session c with
  | Some s => ret s
  | None => raise (AttributeError "_session")
  end.

Definition get_access_token : Coro Json :=
  c <- self ;;
  match _access_token c with
  | Some t => ret t
  | None => raise (AttributeError "_access_token")
  end.

Definition get_expires_at : Coro Z :=
  c <- self ;;
  match _expires_at c with
  | Some e => ret e
  | None => raise (AttributeError "_expires_at")
  end.

(** [self._session.post(...)] and [self._session.request(...)]: aiohttp
    refuses to send on a closed session. *)
Definition session_send (h : HttpCall) : Coro Response :=
  s <- get_session ;;
  if closed s then raise (RuntimeError "Session is closed")
  else await_http h.

(** [await response.json(...)]. *)
Definition response_json (r : Response) : Coro Json :=
  match json r with
  | Some d => ret d
  | None => raise JSONError
  end.

(** [async with self.lock: body]: the lock is acquired on entry and
    released however the block is left. *)
Fixpoint release_on_exit {A} (t : Step A) : Step A :=
  match t with
  | Done o c => Release (Done o c)
  | Spent c => Spent c
  | Utcnow k => Utcnow (fun z => release_on_exit (k z))
  | Emit n k => Emit n (release_on_exit k)
  | AwaitHttp h c k => AwaitHttp h c (fun r c' => release_on_exit (k r c'))
  | Acquire c k => Acquire c (fun c' => release_on_exit (k c'))
  | Release k => Release (release_on_exit k)
  | AwaitClose c k => AwaitClose c (fun c' => release_on_exit (k c'))
  end.

Definition with_lock {A} (body : Coro A) : Coro A :=
  fun c => Acquire c (fun c' => release_on_exit (body c')).

(** ** datetime *)

Definition MICRO : Z := 1000000.
Definition DAY : Z := 86400.
(** [datetime.max] is the last microsecond of 9999-12-31, day 3652059. *)
Definition DATETIME_END : Z := 3652059 * DAY * MICRO.
Definition TIMEDELTA_MAX_DAYS : Z := 999999999.

(** [timedelta.seconds]: the seconds field of the normalised
    (days, seconds, microseconds), between 0 and 86399. *)
Definition timedelta_seconds (td : Z) : Z := (td / MICRO) mod DAY.

(** [datetime.timedelta(seconds=v)]. *)
Definition timedelta_of_seconds (v : Json) : Outcome Z :=
  let make (n : Z) :=
    if (- TIMEDELTA_MAX_DAYS <=? n / DAY) && (n / DAY <=? TIMEDELTA_MAX_DAYS)
    then Returned (n * MICRO)
    else Raised OverflowError in
  match v with
  | JInt n => make n
  | JBool b => make (if b then 1 else 0)
  | _ => Raised TypeError
  end.

(** [datetime + timedelta]. *)
Definition datetime_add (t td : Z) : Outcome Z :=
  if (0 <=? t + td) && (t + td <? DATETIME_END)
  then Returned (t + td)
  else Raised OverflowError.

(** ** The coroutines *)

Definition mem_status (s : Z) (l : list Z) : bool := existsb (Z.eqb s) l.

(** http.py 178-212: the [try]/[except AssertionError] block of
    [authorize].  The [assert] fails on any status but 200; a [KeyError] or
    a [TypeError] raised after it passed is not caught. *)
Definition handle_token_response (response : Response) (data : Json) : Coro unit :=
  if status response =? 200 then
    token <- lift (getitem data "access_token") ;;
    update (set_access_token token) ;;;
    now <- utcnow ;;
    secs <- lift (getitem data "expires_in") ;;
    td <- lift (timedelta_of_seconds secs) ;;
    expiry <- lift (datetime_add now td) ;;
    update (set_expires_at expiry)
  else if mem_status (status response) [201; 202; 204; 304; 401; 404] then
    emit (Log ERROR "Received %s with %s on authorization"
            [JInt (status response); data])
  else if status response =? 400 then
    emit (Log CRITICAL "Received %s while trying to authorize: %s"
            [JInt (status response); data]) ;;;
    lift (raise_http KInvalidClientCredentials data (status response))
  else if status response =? 403 then
    lift (raise_http KHTTPException data (status response))
  else if mem_status (status response) [500; 502; 503] then
    emit (Log CRITICAL "Server Error: Received %s while trying to authorize: %s"
            [JInt (status response); data]) ;;;
    lift (raise_http KServerError data (status response))
  else ret tt.

(** http.py 158-212. *)
Definition authorize : Coro unit :=
  c <- self ;;
  match _session c with
  | None => emit NewSession ;;; update (set_session {| closed := false |})
  | Some _ => ret tt
  end ;;;
  let auth_url := ACCOUNT_BASE ++ "token/" in
  let body := [("grant_type", "client_credentials")] in
  raw <- lift (encode_ascii (client_id c ++ ":" ++ client_secret c)) ;;
  let headers := "Basic " ++ b64encode raw in
  response <- session_send (POST auth_url headers body) ;;
  data <- response_json response ;;
  handle_token_response response data.

Definition log_params (p : option PARAMS) : Json :=
  match p with
  | Some d => JDict d
  | None => JNull
  end.

(** The freshness test of http.py 112-114:
    [(datetime.datetime.utcnow() - self._expires_at).seconds <= 10]. *)
Definition refresh_due (now expires_at : Z) : bool :=
  timedelta_seconds (now - expires_at) <=? 10.

(** http.py 136-156: what the status of the response leads to.  [again] is
    [self.request], which line 142 calls. *)
Definition interpret (again : Route -> Coro Json) (route : Route)
    (response : Response) (data : Json) : Coro Json :=
  let method := method route in
  let url := url route in
  if (200 <=? status response) && (status response <? 300) then
    emit (Log DEBUG "Received data from (%s) %s: %s"
            [JStr method; JStr url; data]) ;;;
    ret data
  else if status response =? 401 then
    authorize ;;;
    again route
  else if status response =? 403 then
    lift (raise_http KForbidden data (status response))
  else if status response =? 404 then
    lift (raise_http KNotFound data (status response))
  else
    (* line 149: rate limited, nothing is done about it yet *)
    (if status response =? 429 then ret tt else ret tt) ;;;
    if mem_status (status response) [500; 502; 503] then
      lift (raise_http KServerError data (status response))
    else
      lift (raise_http KHTTPException data (status response)).

(** http.py 97-156, the body of [request]. *)
Definition request_body (again : Route -> Coro Json) (route : Route) : Coro Json :=
  c <- self ;;
  match _session c with
  | None =>
      raise (NotAuthorized_init "You need to authorize first before making any requests")
  | Some _ =>
    let method := method route in
    let url := url route in
    let params := params route in
    now <- utcnow ;;
    expires_at <- get_expires_at ;;
    (if refresh_due now expires_at then authorize else ret tt) ;;;
    token <- get_access_token ;;
    let headers := "Bearer " ++ str token in
    with_lock (
      emit (Log DEBUG "Dispatching %s request on %s with %s"
              [JStr method; JStr url; log_params params]) ;;;
      response <- session_send (REQUEST method url headers params) ;;
      emit (Log DEBUG "%s on %s with %s has responded with %s"
              [JStr method; JStr url; log_params params; JInt (status response)]) ;;;
      data <- response_json response ;;
      interpret again route response data)
  end.

(** [HTTPClient.request]: the recursion of the source is unfolded [fuel]
    times; [Spent] marks a call the unfolding does not reach. *)
Fixpoint request (fuel : nat) (route : Route) : Coro Json :=
  match fuel with
  | O => fun c => Spent c
  | S fuel' => request_body (request fuel') route
  end.

Definition close_session (c : HTTPClient) : HTTPClient :=
  match _session c with
  | Some _ => set_session {| closed := true |} c
  | None => c
  end.

(** [await self._session.close()]: the connector is marked closed before
    the coroutine suspends. *)
Definition session_close : Coro unit :=
  fun c => AwaitClose (close_session c) (fun c' => Done (Returned tt) c').

(** http.py 214-219.  A [ClientSession] object is always truthy, so
    [self._session and ...] only reads the attribute. *)
Definition destroy : Coro unit :=
  s <- get_session ;;
  if negb (closed s) then
    session_close ;;;
    emit (Log DEBUG "Closed aiohttp session" [])
  else ret tt.

End HTTP.
Import HTTP.

(** ** One call at a time, against scripted servers *)

Module Seq.

(** The outside world of a run: the response to the n-th authorization
    request, the response to the n-th data request, and the n-th reading of
    the clock. *)
Record Env : Type := mkEnv {
  auth_server : nat -> Response;
  api_server : nat -> Response;
  clock : nat -> Z
}.

Inductive Event : Type :=
| Sent (h : HttpCall) (r : Response)
| Noted (n : Note)
| SessionClosed.

(** How far the run has come: whether the lock is taken, the calls made so
    far, and what was observed. *)
Record World : Type := mkWorld {
  held : bool;
  posts : nat;
  requests : nat;
  ticks : nat;
  trace : list Event
}.

Definition genesis : World := {| held := false; posts := 0; requests := 0; ticks := 0; trace := [] |}.

Definition observe (e : Event) (w : World) : World :=
  {| held := held w; posts := posts w; requests := requests w; ticks := ticks w;
     trace := trace w ++ [e] |}.

Definition tick (w : World) : World :=
  {| held := held w; posts := posts w; requests := requests w; ticks := S (ticks w);
     trace := trace w |}.

Definition set_held (b : bool) (w : World) : World :=
  {| held := b; posts := posts w; requests := requests w; ticks := ticks w;
     trace := trace w |}.

Definition respond (E : Env) (h : HttpCall) (w : World) : Response :=
  match h with
  | POST _ _ _ => auth_server E (posts w)
  | REQUEST _ _ _ _ => api_server E (requests w)
  end.

Definition sent (h : HttpCall) (r : Response) (w : World) : World :=
  match h with
  | POST _ _ _ =>
      {| held := held w; posts := S (posts w); requests := requests w; ticks := ticks w;
         trace := trace w ++ [Sent h r] |}
  | REQUEST _ _ _ _ =>
      {| held := held w; posts := posts w; requests := S (requests w); ticks := ticks w;
         trace := trace w ++ [Sent h r] |}
  end.

(** How a call ends when it is the only coroutine on the loop.  [Blocked]:
    it waits for a lock that nothing is left to release.  [OutOfFuel]: the
    model was not unfolded far enough to tell. *)
Inductive Result (A : Type) : Type :=
| Completed (o : Outcome A)
| Blocked
| OutOfFuel.
Arguments Completed {A} o.
Arguments Blocked {A}.
Arguments OutOfFuel {A}.

Fixpoint run {A} (E : Env) (t : Step A) (w : World) : Result A * HTTPClient * World :=
  match t with
  | Done o c => (Completed o, c, w)
  | Spent c => (OutOfFuel, c, w)
  | Utcnow k => run E (k (clock E (ticks w))) (tick w)
  | Emit n k => run E k (observe (Noted n) w)
  | AwaitHttp h c k => run E (k (respond E h w) c) (sent h (respond E h w) w)
  | Acquire c k => if held w then (Blocked, c, w) else run E (k c) (set_held true w)
  | Release k => run E k (set_held false w)
  | AwaitClose c k => run E (k c) (observe SessionClosed w)
  end.

(** The two requests the client sends, as they appear on the wire. *)
Definition token_call (c : HTTPClient) : HttpCall :=
  POST (ACCOUNT_BASE ++ "token/")
       ("Basic " ++ b64encode (map nat_of_ascii
                     (list_ascii_of_string (client_id c ++ ":" ++ client_secret c))))
       [("grant_type", "client_credentials")].

Definition data_call (route : Route) (token : Json) : HttpCall :=
  REQUEST (method route) (url route) ("Bearer " ++ str token) (params route).

(** The client and the world when the response to the token request is in. *)
Definition with_session (c : HTTPClient) : HTTPClient :=
  match _session c with
  | Some _ => c
  | None => set_session {| closed := false |} c
  end.

Definition token_sent (E : Env) (c : HTTPClient) (w : World) : World :=
  sent (token_call c) (auth_server E (posts w))
    (match _session c with
     | Some _ => w
     | None => observe (Noted NewSession) w
     end).

(** The requests of a trace, in the order they were sent. *)
Fixpoint calls (tr : list Event) : list HttpCall :=
  match tr with
  | [] => []
  | Sent h _ :: tr' => h :: calls tr'
  | _ :: tr' => calls tr'
  end.

Fixpoint sessions_created (tr : list Event) : nat :=
  match tr with
  | [] => O
  | Noted NewSession :: tr' => S (sessions_created tr')
  | _ :: tr' => sessions_created tr'
  end.

(** Sequencing and lock release, read off the result of a run. *)
Definition then_run {A B} (E : Env) (f : A -> Coro B)
    (x : Result A * HTTPClient * World) : Result B * HTTPClient * World :=
  match x with
  | (Completed (Returned a), c, w) => run E (f a c) w
  | (Completed (Raised e), c, w) => (Completed (Raised e), c, w)
  | (Blocked, c, w) => (Blocked, c, w)
  | (OutOfFuel, c, w) => (OutOfFuel, c, w)
  end.

Definition released {A} (x : Result A * HTTPClient * World)
  : Result A * HTTPClient * World :=
  match x with
  | (Completed o, c, w) => (Completed o, c, set_held false w)
  | y => y
  end.

Definition result {A} (x : Result A * HTTPClient * World) : Result A := fst (fst x).
Definition client {A} (x : Result A * HTTPClient * World) : HTTPClient := snd (fst x).
Definition world {A} (x : Result A * HTTPClient * World) : World := snd x.

(** What a run from [c] and [w] keeps: the credentials; the number of token
    requests never goes down, and the whole client is as it was when that
    number is. *)
Definition untouched {A} (c : HTTPClient) (w : World)
    (x : Result A * HTTPClient * World) : Prop :=
  client_id (client x) = client_id c /\
  client_secret (client x) = client_secret c /\
  (posts w <= posts (world x))%nat /\
  (posts (world x) = posts w -> client x = c).

End Seq.
Import Seq.

(** ** Many calls on one event loop *)

Module Loop.

(** A coroutine between two turns of the loop. *)
Inductive Task (A : Type) : Type :=
| Ready (body : Coro A)
| OnWire (h : HttpCall) (k : Response -> Coro A)
| ForLock (k : Coro A)
| Closing (k : Coro A)
| Finished (o : Outcome A)
| Stuck.
Arguments Ready {A} body.
Arguments OnWire {A} h k.
Arguments ForLock {A} k.
Arguments Closing {A} k.
Arguments Finished {A} o.
Arguments Stuck {A}.

(** The client object all tasks share, the state of its lock, the tasks. *)
Record State (A : Type) : Type := mkState {
  shared : HTTPClient;
  lock : bool;
  tasks : list (Task A)
}.
Arguments mkState {A} shared lock tasks.
Arguments shared {A} s.
Arguments lock {A} s.
Arguments tasks {A} s.

(** One decision of the scheduler and of the outside world: which task
    runs next, the response it finds if it was waiting for one, and the
    clock readings it gets while it runs. *)
Record Choice : Type := mkChoice {
  who : nat;
  reply : Response;
  readings : nat -> Z
}.

(** Run a coroutine up to its next suspension: nothing else runs in
    between.  [l] is the state of the lock, [n] counts the clock readings. *)
Fixpoint settle {A} (now : nat -> Z) (n : nat) (l : bool) (t : Step A)
  : bool * HTTPClient * Task A :=
  match t with
  | Done o c => (l, c, Finished o)
  | Spent c => (l, c, Stuck)
  | Utcnow k => settle now (S n) l (k (now n))
  | Emit _ k => settle now n l k
  | AwaitHttp h c k => (l, c, OnWire h k)
  | Acquire c k => if l then (l, c, ForLock k) else settle now n true (k c)
  | Release k => settle now n false k
  | AwaitClose c k => (l, c, Closing k)
  end.

(** What a suspended task does when the loop picks it: a task waiting for
    the lock can only go on when the lock is free, and then takes it. *)
Definition resume {A} (ch : Choice) (c : HTTPClient) (l : bool) (tk : Task A)
  : option (bool * Step A) :=
  match tk with
  | Ready body => Some (l, body c)
  | OnWire _ k => Some (l, k (reply ch) c)
  | ForLock k => if l then None else Some (true, k c)
  | Closing k => Some (l, k c)
  | Finished _ => None
  | Stuck => None
  end.

Fixpoint set_nth {T} (i : nat) (x : T) (l : list T) : list T :=
  match l, i with
  | [], _ => []
  | _ :: l', O => x :: l'
  | y :: l', S i' => y :: set_nth i' x l'
  end.

Definition turn {A} (s : State A) (ch : Choice) : State A :=
  match nth_error (tasks s) (who ch) with
  | Some tk =>
      match resume ch (shared s) (lock s) tk with
      | Some (l0, t) =>
          let '(l', c', tk') := settle (readings ch) 0 l0 t in
          mkState c' l' (set_nth (who ch) tk' (tasks s))
      | None => s
      end
  | None => s
  end.

Definition exec {A} (sch : list Choice) (s : State A) : State A :=
  fold_left turn sch s.

(** A task whose data request is on the wire. *)
Definition on_wire {A} (tk : Task A) : bool :=
  match tk with
  | OnWire (REQUEST _ _ _ _) _ => true
  | _ => false
  end.

Definition in_flight {A} (s : State A) : nat :=
  List.length (filter on_wire (tasks s)).

Definition finished {A} (tk : Task A) : bool :=
  match tk with
  | Finished _ => true
  | _ => false
  end.

(** A client with a free lock on which [request] has been called once per
    element of [calls]. *)
Definition boot (c : HTTPClient) (calls : list (nat * Route)) : State Json :=
  mkState c false (map (fun fr => Ready (request (fst fr) (snd fr))) calls).

(** *** The lock discipline of a coroutine

    [quiet t]: [t] touches neither the lock nor the data endpoint.
    [body_ok t]: [t] can be the body of an [async with self.lock] block: it
    never releases the lock itself.
    [outside t]: [t] runs without the lock, sends data requests only after
    acquiring it, and has released it when it finishes.
    [inside t]: [t] runs with the lock and does not finish before
    releasing it. *)

Inductive quiet {A} : Step A -> Prop :=
| quiet_done o c : quiet (Done o c)
| quiet_spent c : quiet (Spent c)
| quiet_now k : (forall z, quiet (k z)) -> quiet (Utcnow k)
| quiet_emit n k : quiet k -> quiet (Emit n k)
| quiet_post u a d c k :
    (forall r c', quiet (k r c')) -> quiet (AwaitHttp (POST u a d) c k)
| quiet_close c k : (forall c', quiet (k c')) -> quiet (AwaitClose c k).

Inductive body_ok {A} : Step A -> Prop :=
| body_done o c : body_ok (Done o c)
| body_spent c : body_ok (Spent c)
| body_now k : (forall z, body_ok (k z)) -> body_ok (Utcnow k)
| body_emit n k : body_ok k -> body_ok (Emit n k)
| body_http h c k : (forall r c', body_ok (k r c')) -> body_ok (AwaitHttp h c k)
| body_acquire c k : body_ok (Acquire c k)
| body_close c k : (forall c', body_ok (k c')) -> body_ok (AwaitClose c k).

Inductive outside {A} : Step A -> Prop :=
| out_done o c : outside (Done o c)
| out_spent c : outside (Spent c)
| out_now k : (forall z, outside (k z)) -> outside (Utcnow k)
| out_emit n k : outside k -> outside (Emit n k)
| out_post u a d c k :
    (forall r c', outside (k r c')) -> outside (AwaitHttp (POST u a d) c k)
| out_acquire c k : (forall c', inside (k c')) -> outside (Acquire c k)
| out_close c k : (forall c', outside (k c')) -> outside (AwaitClose c k)
with inside {A} : Step A -> Prop :=
| in_spent c : inside (Spent c)
| in_now k : (forall z, inside (k z)) -> inside (Utcnow k)
| in_emit n k : inside k -> inside (Emit n k)
| in_http h c k : (forall r c', inside (k r c')) -> inside (AwaitHttp h c k)
| in_acquire c k : inside (Acquire c k)
| in_release k : outside k -> inside (Release k)
| in_close c k : (forall c', inside (k c')) -> inside (AwaitClose c k).

(** The same for a suspended task: what it will do when resumed. *)
Definition task_out {A} (tk : Task A) : Prop :=
  match tk with
  | Ready body => forall c, outside (body c)
  | OnWire (POST _ _ _) k => forall r c, outside (k r c)
  | OnWire (REQUEST _ _ _ _) _ => False
  | ForLock k => forall c, inside (k c)
  | Closing k => forall c, outside (k c)
  | Finished _ => True
  | Stuck => True
  end.

Definition task_in {A} (tk : Task A) : Prop :=
  match tk with
  | Ready _ => False
  | OnWire _ k => forall r c, inside (k r c)
  | ForLock _ => True
  | Closing k => forall c, inside (k c)
  | Finished _ => False
  | Stuck => True
  end.

(** The invariant of the loop: the lock is taken exactly when some task
    holds it, that task is inside its block, and all others are outside. *)
Definition disciplined {A} (s : State A) : Prop :=
  exists holder : option nat,
    (forall i tk, nth_error (tasks s) i = Some tk ->
       match holder with
       | Some h => if Nat.eqb h i then task_in tk else task_out tk
       | None => task_out tk
       end) /\
    match holder with
    | Some h => lock s = true /\ (h < List.length (tasks s))%nat
    | None => lock s = false
    end.

End Loop.
Import Loop.

(** ** Concrete clients, servers and bodies *)

Module Scenario.

(** 2021-06-01T00:00:00. *)
Definition T0 : Z := 63758102400000000.
Definition seconds (n : Z) : Z := n * MICRO.

Definition token_body (token : string) (expires_in : Z) : Json :=
  JDict [("access_token", JStr token); ("token_type", JStr "Bearer");
         ("expires_in", JInt expires_in)].

(** The two error shapes of the API: the regular error object of the Web
    API and the authentication error object of the accounts service. *)
Definition api_error (status : Z) (message : string) : Json :=
  JDict [("error", JDict [("status", JInt status); ("message", JStr message)])].

Definition auth_error : Json :=
  JDict [("error", JStr "invalid_client");
         ("error_description", JStr "Invalid client secret")].

Definition track : Json := JDict [("id", JStr "X"); ("name", JStr "Song")].

Definition fresh_client : HTTPClient := HTTPClient_init "id" "secret".

(** The client after an authorization at [T0] that returned token T1,
    valid for an hour. *)
Definition client_T1 : HTTPClient :=
  {| client_id := "id"; client_secret := "secret";
     _session := Some {| closed := false |};
     _access_token := Some (JStr "T1");
     _expires_at := Some (T0 + seconds 3600) |}.

Definition get_track : Route := Route_init "GET" "tracks/X" None.

(** Servers that always give the same answer, at a clock that stands still. *)
Definition constant (auth api : Response) (now : Z) : Env :=
  {| auth_server := fun _ => auth; api_server := fun _ => api; clock := fun _ => now |}.

Definition ok_T1 : Response := mkResponse 200 (Some (token_body "T1" 3600)).
Definition ok_T2 : Response := mkResponse 200 (Some (token_body "T2" 3600)).
Definition ok_track : Response := mkResponse 200 (Some track).
Definition unauthorized : Response :=
  mkResponse 401 (Some (api_error 401 "The access token expired")).

(** A client whose token was issued at [T0] for a whole day. *)
Definition client_day : HTTPClient :=
  {| client_id := "id"; client_secret := "secret";
     _session := Some {| closed := false |};
     _access_token := Some (JStr "T1");
     _expires_at := Some (T0 + seconds 86400) |}.

(** The data endpoint rejects the first request with 401 and accepts every
    later one; the accounts service hands out token T2. *)
Definition expired_once (now : Z) : Env :=
  {| auth_server := fun _ => ok_T2;
     api_server := fun n => match n with O => unauthorized | S _ => ok_track end;
     clock := fun _ => now |}.

End Scenario.

(** ** http.py 221-742: the endpoint methods

    Each method builds a parameter dict and a [Route] and awaits
    [self.request] on it.  [ID] and [MARKETS] are annotations for strings.
    A keyword argument with a default is an explicit argument here
    ([limit] defaults to 20 and [offset] to 0 in the source, the others to
    [None]). *)

Module Endpoints.

(** [d[key] = value] on a dict. *)
Fixpoint setitem (key : string) (value : Json) (d : PARAMS) : PARAMS :=
  match d with
  | [] => [(key, value)]
  | (k, v) :: d' =>
      if String.eqb key k then (k, value) :: d' else (k, v) :: setitem key value d'
  end.

(** [d.pop(key)]. *)
Fixpoint pop (key : string) (d : PARAMS) : PARAMS :=
  match d with
  | [] => []
  | (k, v) :: d' => if String.eqb key k then d' else (k, v) :: pop key d'
  end.

(** [if arg: params[key] = arg] for an optional string: [None] and the
    empty string are falsy. *)
Definition set_if_str (key : string) (arg : option string) (d : PARAMS) : PARAMS :=
  match arg with
  | Some (String c s) => setitem key (JStr (String c s)) d
  | _ => d
  end.

(** [if arg: params[key] = ",".join(x for x in arg)] for an optional list:
    [None] and the empty list are falsy. *)
Definition set_if_list (key : string) (arg : option (list string)) (d : PARAMS) : PARAMS :=
  match arg with
  | Some (x :: l) => setitem key (JStr (join "," (x :: l))) d
  | _ => d
  end.

(** An [Optional[int]] as a dict value. *)
Definition int_or_None (arg : option Z) : Json :=
  match arg with
  | Some n => JInt n
  | None => JNull
  end.

(** [s.replace(old, new)] for one-character [old] and [new]. *)
Fixpoint replace_char (old new : ascii) (s : string) : string :=
  match s with
  | EmptyString => EmptyString
  | String c s' =>
      String (if Ascii.eqb c old then new else c) (replace_char old new s')
  end.

(** http.py 466-511: the keys [get_recommendations] stores, in order; each
    line reads [params[key] = key]. *)
Definition RECOMMENDATION_KEYS : list string :=
  ["seed_artists"; "seed_genres"; "seed_tracks"; "limit"; "market"; "min_acousticness";
   "max_acousticness"; "target_acousticness"; "min_danceability"; "max_danceability";
   "target_danceability"; "min_duration_ms"; "max_duration_ms"; "target_duration_ms";
   "min_energy"; "max_energy"; "target_energy"; "min_instrumentalness";
   "max_instrumentalness"; "target_instrumentalness"; "min_key"; "max_key";
   "target_key"; "min_liveness"; "max_liveness"; "target_liveness"; "min_loudness";
   "max_loudness"; "target_loudness"; "min_mode"; "max_mode"; "target_mode";
   "min_popularity"; "max_popularity"; "target_popularity"; "min_speechiness";
   "max_speechiness"; "target_speechiness"; "min_tempo"; "max_tempo"; "target_tempo";
   "min_time_signature"; "max_time_signature"; "target_time_signature"; "min_valence";
   "max_valence"].

(** http.py 513-515: [for key, value in params.items(): if value is None:
    params.pop(key)].  [items] is what the iterator has left, [changed]
    whether the dict changed size since the iterator was made: its next
    step then raises. *)
Fixpoint pop_Nones (d : PARAMS) (items : PARAMS) (changed : bool) : Outcome PARAMS :=
  if changed then Raised (RuntimeError "dictionary changed size during iteration")
  else
    match items with
    | [] => Returned d
    | (key, value) :: rest =>
        if is_not_None value then pop_Nones d rest false
        else pop_Nones (pop key d) rest true
    end.

(** A call of an endpoint method, with its arguments. *)
Inductive Endpoint : Type :=
| get_multiple_albums (ids : list string) (market : option string)
| get_album (id : string) (market : option string)
| get_album_tracks (id : string) (market : option string) (limit offset : option Z)
| get_multiple_artists (ids : list string)
| get_artist (id : string)
| get_artist_top_tracks (id : string) (market : string)
| get_artist_related_artists (id : string)
| get_artist_albums (id : string) (include_groups : option (list string))
    (market : option string) (limit offset : option Z)
| get_all_new_releases (country : option string) (limit offset : option Z)
| get_all_featured_playlists (country locale timestamp : option string)
    (limit offset : option Z)
| get_all_categories (country locale : option string) (limit offset : option Z)
| get_category (category_id : string) (country locale : option string)
| get_category_playlists (category_id : string) (country : option string)
    (limit offset : option Z)
| get_recommendations (kwargs : string -> Json)
| get_recommendation_genres
| get_multiple_episodes (ids : list string) (market : option string)
| get_episode (id : string) (market : option string)
| check_if_users_follow_playlist (playlist_id : string) (ids : list string)
| get_available_markets
| get_user_playlists (user_id : string) (limit offset : option Z)
| get_playlist (playlist_id : string) (market fields : option string)
    (additional_types : option (list string))
| get_playlist_items (playlist_id : string) (market : option string)
    (limit offset : option Z) (fields : option string)
    (additional_types : option (list string))
| search (query _type : string) (market : option string) (limit offset : option Z)
    (include_external : option string)
| get_shows (ids : list string) (market : option string)
| get_show (id : string) (market : option string)
| get_show_episodes (id : string) (market : option string) (limit offset : option Z)
| get_tracks (ids : list string) (market : option string)
| get_track (id : string) (market : option string)
| get_audio_features_of_tracks (ids : list string)
| get_audio_features_of_track (id : string)
| get_audio_analysis_of_track (id : string)
| get_user_profile (user_id : string).

Definition GET (path : string) (params : option PARAMS) : Outcome Route :=
  Returned (Route_init "GET" path params).

(** The body of each method up to the [Route] it hands to [request].  The
    keyword arguments of [get_recommendations] are read by name; its
    [target_valence] is accepted and never stored. *)
Definition route (e : Endpoint) : Outcome Route :=
  match e with
  | get_multiple_albums ids market =>
      GET "albums" (Some (set_if_str "market" market [("ids", JStr (join "," ids))]))
  | get_album id market =>
      GET ("albums/" ++ id) (Some (set_if_str "market" market []))
  | get_album_tracks id market limit offset =>
      GET ("albums/" ++ id ++ "/tracks")
        (Some (setitem "offset" (int_or_None offset)
              (setitem "limit" (int_or_None limit)
              (set_if_str "market" market []))))
  | get_multiple_artists ids =>
      GET "artists" (Some [("ids", JStr (join "," ids))])
  | get_artist id =>
      GET ("artists/" ++ id) None
  | get_artist_top_tracks id market =>
      GET ("artists/" ++ id ++ "/top-tracks") (Some [("market", JStr market)])
  | get_artist_related_artists id =>
      GET ("artists/" ++ id ++ "/related-artists") None
  | get_artist_albums id include_groups market limit offset =>
      GET ("artists/" ++ id ++ "/albums")
        (Some (setitem "offset" (int_or_None offset)
              (setitem "limit" (int_or_None limit)
              (set_if_str "market" market
              (set_if_list "include_groups" include_groups [])))))
  | get_all_new_releases country limit offset =>
      GET "browse/new-releases"
        (Some (setitem "offset" (int_or_None offset)
              (setitem "limit" (int_or_None limit)
              (set_if_str "country" country []))))
  | get_all_featured_playlists country locale timestamp limit offset =>
      GET "browse/featured-playlists"
        (Some (setitem "offset" (int_or_None offset)
              (setitem "limit" (int_or_None limit)
              (set_if_str "timestamp" timestamp
              (set_if_str "locale" locale
              (set_if_str "country" country []))))))
  | get_all_categories country locale limit offset =>
      GET "browse/categories"
        (Some (setitem "offset" (int_or_None offset)
              (setitem "limit" (int_or_None limit)
              (set_if_str "locale" locale
              (set_if_str "country" country [])))))
  | get_category category_id country locale =>
      GET ("browse/categories/" ++ category_id)
        (Some (set_if_str "locale" locale (set_if_str "country" country [])))
  | get_category_playlists category_id country limit offset =>
      GET ("browse/categories/" ++ category_id ++ "/playlists")
        (Some (setitem "offset" (int_or_None offset)
              (setitem "limit" (int_or_None limit)
              (set_if_str "country" country []))))
  | get_recommendations kwargs =>
      let params :=
        fold_left (fun d key => setitem key (kwargs key) d) RECOMMENDATION_KEYS [] in
      obind (pop_Nones params params false) (fun params =>
      GET "recommendations" (Some params))
  | get_recommendation_genres =>
      GET "recommendations/available-genre-seeds" None
  | get_multiple_episodes ids market =>
      GET "episodes" (Some (set_if_str "market" market []))
  | get_episode id market =>
      GET ("episodes/" ++ id) (Some (set_if_str "market" market []))
  | check_if_users_follow_playlist playlist_id ids =>
      GET ("playlists/" ++ playlist_id ++ "/followers/contains")
        (Some [("ids", JStr (join "," ids))])
  | get_available_markets =>
      GET "markets" None
  | get_user_playlists user_id limit offset =>
      GET ("users/" ++ user_id ++ "/playlists")
        (Some [("limit", int_or_None limit); ("offset", int_or_None offset)])
  | get_playlist playlist_id market fields additional_types =>
      GET ("playlists/" ++ playlist_id)
        (Some (set_if_list "additional_types" additional_types
              (set_if_str "fields" fields
              (set_if_str "market" market []))))
  | get_playlist_items playlist_id market limit offset fields additional_types =>
      GET ("playlists/" ++ playlist_id ++ "/tracks")
        (Some (set_if_list "additional_types" additional_types
              (set_if_str "fields" fields
              (setitem "offset" (int_or_None offset)
              (setitem "limit" (int_or_None limit)
              (set_if_str "market" market []))))))
  | search query _type market limit offset include_external =>
      GET "search"
        (Some (set_if_str "include_external" include_external
              (setitem "offset" (int_or_None offset)
              (setitem "limit" (int_or_None limit)
              (set_if_str "market" market
                 [("query", JStr (replace_char " " "+" query)); ("type", JStr _type)])))))
  | get_shows ids market =>
      GET "shows" (Some (set_if_str "market" market [("ids", JStr (join "," ids))]))
  | get_show id market =>
      GET ("shows/" ++ id) (Some (set_if_str "market" market []))
  | get_show_episodes id market limit offset =>
      GET ("shows/" ++ id ++ "/episodes")
        (Some (setitem "offset" (int_or_None offset)
              (setitem "limit" (int_or_None limit)
              (set_if_str "market" market []))))
  | get_tracks ids market =>
      GET "tracks" (Some (set_if_str "market" market [("ids", JStr (join "," ids))]))
  | get_track id market =>
      GET ("tracks/" ++ id) (Some (set_if_str "market" market []))
  | get_audio_features_of_tracks ids =>
      GET "audio-features" (Some [("ids", JStr (join "," ids))])
  | get_audio_features_of_track id =>
      GET ("audio-features/" ++ id) None
  | get_audio_analysis_of_track id =>
      GET ("audio-analysis/" ++ id) None
  | get_user_profile user_id =>
      GET ("users/" ++ user_id) None
  end.

(** [return await self.request(Route(...))]: an exception raised while the
    route is built escapes before [request] is entered. *)
Definition invoke (fuel : nat) (e : Endpoint) : Coro Json :=
  bind (lift (route e)) (fun r => request fuel r).

(** The keys of a parameter dict. *)
Definition keys (d : PARAMS) : list string := map fst d.

(** No string occurs twice. *)
Fixpoint distinct (l : list string) : bool :=
  match l with
  | [] => true
  | x :: l' => negb (existsb (String.eqb x) l') && distinct l'
  end.

End Endpoints.
Import Endpoints.

(** ** client.py: the public client *)

Module Client.

(** client.py 71-84: [SpotifyClient.__init__].  The object keeps the
    credentials and the [HTTPClient] it creates; [self.http] is never
    assigned again, so the methods are coroutines on that [HTTPClient]. *)
Record SpotifyClient : Type := {
  sc_client_id : string;
  sc_client_secret : string;
  http : HTTPClient
}.

Definition SpotifyClient_init (client_id client_secret : string) : SpotifyClient :=
  {| sc_client_id := client_id;
     sc_client_secret := client_secret;
     http := HTTPClient_init client_id client_secret |}.

(** client.py 86-101: [await self.http.authorize()]. *)
Definition SpotifyClient_authorize : Coro unit := authorize.

(** client.py 103-105: [await self.http.destroy()]. *)
Definition SpotifyClient_close : Coro unit := destroy.

End Client.
Import Client.

Local Open Scope coro_scope.

(** * Properties *)

(** ** Running sequenced coroutines *)

Section RunLemmas.

Variable E : Env.

Lemma run_bind_step {A B} (t : Step A) (f : A -> Coro B) (w : World) :
  run E (bind_step t f) w = then_run E f (run E t w).
Proof.
  revert w.
  induction t as [o c|c|k IH|n k IH|h c k IH|c k IH|k IH|c k IH]; intro w; simpl.
  - destruct o; reflexivity.
  - reflexivity.
  - apply IH.
  - apply IH.
  - apply IH.
  - destruct (held w); [reflexivity | apply IH].
  - apply IH.
  - apply IH.
Qed.

Lemma run_bind {A B} (m : Coro A) (f : A -> Coro B) (c : HTTPClient) (w : World) :
  run E (bind m f c) w = then_run E f (run E (m c) w).
Proof. apply run_bind_step. Qed.

Lemma run_release_on_exit {A} (t : Step A) (w : World) :
  run E (release_on_exit t) w = released (run E t w).
Proof.
  revert w.
  induction t as [o c|c|k IH|n k IH|h c k IH|c k IH|k IH|c k IH]; intro w; simpl;
    try reflexivity; try apply IH.
  destruct (held w); [reflexivity | apply IH].
Qed.

Lemma run_with_lock {A} (body : Coro A) (c : HTTPClient) (w : World) :
  run E (with_lock body c) w =
  if held w then (Blocked, c, w) else released (run E (body c) (set_held true w)).
Proof.
  unfold with_lock; simpl. destruct (held w); [reflexivity|].
  apply run_release_on_exit.
Qed.

End RunLemmas.

(** ** Proof automation: follow a run through the branches of the code *)

Ltac break_match :=
  match goal with
  | |- context [match ?x with _ => _ end] =>
      lazymatch x with
      | context [match _ with _ => _ end] => fail
      | _ => destruct x eqn:?
      end
  end.

Ltac use_hyp :=
  match goal with
  | H : ?x = _ |- context [match ?x with _ => _ end] => rewrite H
  | H : auth_server _ _ = _ |- context [auth_server _ _] => rewrite H
  | H : api_server _ _ = _ |- context [api_server _ _] => rewrite H
  end.

Ltac cbn_run :=
  cbn -[b64encode Z.eqb Z.leb Z.ltb Z.add Z.mul Z.div Z.modulo Z.opp String.append str
        str_of_int authorize request interpret handle_token_response refresh_due
        HTTPException_init mem_status].

(** Tests on a status that is a numeral are decided on the spot. *)
Ltac decide_tests :=
  repeat match goal with
  | |- context [Z.eqb (Zpos ?a) (Zpos ?b)] =>
      let v := eval vm_compute in (Z.eqb (Zpos a) (Zpos b)) in
      change (Z.eqb (Zpos a) (Zpos b)) with v
  | |- context [Z.leb (Zpos ?a) (Zpos ?b)] =>
      let v := eval vm_compute in (Z.leb (Zpos a) (Zpos b)) in
      change (Z.leb (Zpos a) (Zpos b)) with v
  | |- context [Z.ltb (Zpos ?a) (Zpos ?b)] =>
      let v := eval vm_compute in (Z.ltb (Zpos a) (Zpos b)) in
      change (Z.ltb (Zpos a) (Zpos b)) with v
  | |- context [mem_status (Zpos ?a) ?l] =>
      let v := eval vm_compute in (mem_status (Zpos a) l) in
      change (mem_status (Zpos a) l) with v
  end.

Ltac reduce := cbn_run; decide_tests; cbn_run.

Ltac crunch := repeat (reduce; try first [use_hyp | break_match]).

Ltac unfold_authorize :=
  unfold authorize, handle_token_response, mem_status, encode_ascii, session_send,
    response_json, raise_http, timedelta_of_seconds, datetime_add.

Ltac finish :=
  repeat split; try reflexivity; try (eexists; reflexivity);
  try (intros; discriminate); try congruence.

Ltac unfold_request :=
  unfold request_body, get_expires_at, get_access_token, session_send,
    response_json, get_session.

Ltac push_run :=
  first [rewrite run_bind | rewrite run_bind_step | rewrite run_with_lock
        | rewrite run_release_on_exit].

(** ** Building an exception *)

Lemma HTTPException_init_raises data status_code message e :
  HTTPException_init data status_code message = Raised e ->
  e = TypeError \/ exists key, e = KeyError key.
Proof.
  unfold HTTPException_init, obind, getitem.
  repeat break_match; intros H; inversion H; subst; eauto.
Qed.

Lemma raise_http_not_NotAuthorized {A} k data status_code m :
  @raise_http A k data status_code <> Raised (NotAuthorized m).
Proof.
  unfold raise_http.
  destruct (HTTPException_init data status_code None) eqn:Hi; [discriminate|].
  apply HTTPException_init_raises in Hi. destruct Hi as [->|[key ->]]; discriminate.
Qed.

(** ** [authorize], whatever the server answers *)

Section Authorize.

Variable E : Env.

(** What [authorize] never touches: the lock and the data endpoint; it
    always comes back (returning or raising, never [NotAuthorized]); the
    session is created open when missing and left alone otherwise. *)
Lemma authorize_frame (c : HTTPClient) (w : World) :
  held (world (run E (authorize c) w)) = held w /\
  requests (world (run E (authorize c) w)) = requests w /\
  (exists o, result (run E (authorize c) w) = Completed o) /\
  (forall m, result (run E (authorize c) w) <> Completed (Raised (NotAuthorized m))) /\
  _session (client (run E (authorize c) w)) =
    Some (match _session c with Some s => s | None => {| closed := false |} end) /\
  client_id (client (run E (authorize c) w)) = client_id c /\
  client_secret (client (run E (authorize c) w)) = client_secret c.
Proof.
  unfold_authorize. unfold HTTPException_init, obind, getitem.
  crunch; finish.
Qed.

(** Token and expiry, once set, stay set. *)
Lemma authorize_keeps_token (c : HTTPClient) (w : World) :
  (_access_token c <> None -> _access_token (client (run E (authorize c) w)) <> None) /\
  (_expires_at c <> None -> _expires_at (client (run E (authorize c) w)) <> None).
Proof.
  unfold_authorize.
  crunch; split; intros H; try exact H; try discriminate.
Qed.

(** One call sends at most one token request. *)
Lemma authorize_posts (c : HTTPClient) (w : World) :
  posts (world (run E (authorize c) w)) = posts w \/
  posts (world (run E (authorize c) w)) = S (posts w).
Proof.
  unfold_authorize.
  crunch; auto.
Qed.

End Authorize.

(** ** [request], whatever the servers answer *)

Section Request.

Variable E : Env.

Ltac run_authorize :=
  match goal with
  | |- context [run E (authorize ?c) ?w] =>
    let ra := fresh "ra" in let ca := fresh "ca" in let wa := fresh "wa" in
    let Ha := fresh "Ha" in
    pose proof (authorize_frame E c w) as Ha;
    destruct (run E (authorize c) w) as [[ra ca] wa];
    unfold result, client, world in Ha; simpl in Ha;
    let o := fresh "o" in let Hheld := fresh "Hheld" in
    let Hreq := fresh "Hreq" in let Hna := fresh "Hna" in let Hses := fresh "Hses" in
    destruct Ha as (Hheld & Hreq & [o ->] & Hna & Hses & _);
    destruct o
  end.

Lemma run_interpret again route resp data c w :
  run E (interpret again route resp data c) w =
  if (200 <=? status resp) && (status resp <? 300) then
    (Completed (Returned data), c,
     observe (Noted (Log DEBUG "Received data from (%s) %s: %s"
                       [JStr (method route); JStr (url route); data])) w)
  else if status resp =? 401 then
    then_run E (fun _ => again route) (run E (authorize c) w)
  else if status resp =? 403 then
    (Completed (raise_http KForbidden data (status resp)), c, w)
  else if status resp =? 404 then
    (Completed (raise_http KNotFound data (status resp)), c, w)
  else if mem_status (status resp) [500; 502; 503] then
    (Completed (raise_http KServerError data (status resp)), c, w)
  else
    (Completed (raise_http KHTTPException data (status resp)), c, w).
Proof.
  unfold interpret.
  destruct ((200 <=? status resp) && (status resp <? 300)); [reflexivity|].
  destruct (status resp =? 401). { apply run_bind. }
  destruct (status resp =? 403); [reflexivity|].
  destruct (status resp =? 404); [reflexivity|].
  destruct (status resp =? 429); reduce;
  destruct (mem_status (status resp) [500; 502; 503]); reflexivity.
Qed.

Ltac advance :=
  reduce; repeat (first [push_run | rewrite run_interpret]; reduce).

Ltac explore := repeat (advance; try first [run_authorize | use_hyp | break_match]).

Lemma result_released {A} (x : Result A * HTTPClient * World) :
  result (released x) = result x.
Proof. destruct x as [[[o| |] c] w]; reflexivity. Qed.

Lemma client_released {A} (x : Result A * HTTPClient * World) :
  client (released x) = client x.
Proof. destruct x as [[[o| |] c] w]; reflexivity. Qed.

Lemma requests_released {A} (x : Result A * HTTPClient * World) :
  requests (world (released x)) = requests (world x).
Proof. destruct x as [[[o| |] c] w]; reflexivity. Qed.

Lemma posts_released {A} (x : Result A * HTTPClient * World) :
  posts (world (released x)) = posts (world x).
Proof. destruct x as [[[o| |] c] w]; reflexivity. Qed.

(** The nested call is reached with the lock taken only: what it would do
    with a free lock does not matter. *)
Lemma request_body_cong again again' r c w :
  (forall c' w', held w' = true -> run E (again r c') w' = run E (again' r c') w') ->
  run E (request_body again r c) w = run E (request_body again' r c) w.
Proof.
  intros Hag. unfold_request.
  explore; try reflexivity; rewrite Hag; auto.
Qed.

(** A call that finds the lock taken sends nothing, does not return a
    value, and never gets to its nested call. *)
Lemma request_body_held again r c w :
  held w = true ->
  (forall again', run E (request_body again' r c) w = run E (request_body again r c) w) /\
  result (run E (request_body again r c) w) <> OutOfFuel /\
  (forall d, result (run E (request_body again r c) w) <> Completed (Returned d)) /\
  requests (world (run E (request_body again r c) w)) = requests w /\
  held (world (run E (request_body again r c) w)) = true.
Proof.
  intros Hh. split.
  - intros again'. unfold_request. explore; try reflexivity; congruence.
  - unfold_request. explore; finish.
Qed.

Lemma request_body_fuel again r c w :
  (forall c' w', held w' = true -> result (run E (again r c') w') <> OutOfFuel) ->
  result (run E (request_body again r c) w) <> OutOfFuel.
Proof.
  intros Hag. unfold_request.
  explore; try discriminate; rewrite result_released; apply Hag; auto.
Qed.

(** Two unfoldings of the recursion decide every run: the second call
    stops at the lock the first one holds. *)
Lemma request_fuel_enough n r c w :
  run E (request (S (S n)) r c) w = run E (request 2 r c) w /\
  result (run E (request 2 r c) w) <> OutOfFuel.
Proof.
  split.
  - change (run E (request_body (request (S n)) r c) w =
            run E (request_body (request 1) r c) w).
    apply request_body_cong. intros c' w' Hh.
    change (run E (request_body (request n) r c') w' =
            run E (request_body (request 0) r c') w').
    destruct (request_body_held (request n) r c' w' Hh) as [H _].
    symmetry. apply H.
  - change (result (run E (request_body (request 1) r c) w) <> OutOfFuel).
    apply request_body_fuel. intros c' w' Hh.
    change (result (run E (request_body (request 0) r c') w') <> OutOfFuel).
    apply (request_body_held (request 0) r c' w' Hh).
Qed.

Lemma request_body_never_NotAuthorized again r c w :
  (forall c' w' m, _session c' <> None ->
     result (run E (again r c') w') <> Completed (Raised (NotAuthorized m))) ->
  _session c <> None ->
  forall m, result (run E (request_body again r c) w) <> Completed (Raised (NotAuthorized m)).
Proof.
  intros Hag Hs m. unfold_request.
  explore; try discriminate; try congruence.
  all: try (intros H; injection H; apply raise_http_not_NotAuthorized).
  all: try (intros H; injection H as ->;
            match goal with H' : forall m, _ <> _ |- _ => eapply H'; reflexivity end).
  all: rewrite result_released; apply Hag; congruence.
Qed.

Lemma request_never_NotAuthorized fuel r c w m :
  _session c <> None ->
  result (run E (request fuel r c) w) <> Completed (Raised (NotAuthorized m)).
Proof.
  revert c w m. induction fuel as [|fuel IH]; intros c w m Hs; simpl.
  - discriminate.
  - apply request_body_never_NotAuthorized; auto.
Qed.

Lemma held_released {A} (x : Result A * HTTPClient * World) (o : Outcome A) :
  result (released x) = Completed o -> held (world (released x)) = false.
Proof. destruct x as [[[o'| |] c] w]; simpl; intros H; [reflexivity|discriminate..]. Qed.

(** [async with self.lock] gives the lock back however the block is left:
    a call that found the lock free and has returned or raised leaves it
    free. *)
Lemma request_body_releases again r c w o :
  held w = false ->
  result (run E (request_body again r c) w) = Completed o ->
  held (world (run E (request_body again r c) w)) = false.
Proof.
  intros Hfree. unfold_request.
  explore; intros Hres; try reflexivity; try discriminate; try congruence.
  all: eapply held_released; eauto.
Qed.

Lemma request_releases fuel r c w o :
  held w = false ->
  result (run E (request fuel r c) w) = Completed o ->
  held (world (run E (request fuel r c) w)) = false.
Proof.
  destruct fuel as [|fuel]; simpl; [discriminate|].
  apply request_body_releases.
Qed.

Lemma request_body_session again r c w :
  (forall c' w', _session (client (run E (again r c') w')) = _session c') ->
  _session (client (run E (request_body again r c) w)) = _session c.
Proof.
  intros Hag. unfold_request.
  explore; try reflexivity; try congruence.
  all: try rewrite client_released, Hag.
  all: repeat match goal with
       | Hs : _session ?c = Some _, H : context [match _session ?c with _ => _ end] |- _ =>
           rewrite Hs in H
       end; congruence.
Qed.

Lemma request_session fuel r c w :
  _session (client (run E (request fuel r c) w)) = _session c.
Proof.
  revert c w. induction fuel as [|fuel IH]; intros c w; simpl.
  - reflexivity.
  - apply request_body_session; auto.
Qed.

End Request.

(** ** [authorize] and [destroy]: the claims *)

Section AuthorizeClaims.

Variable E : Env.

(** Up to the response: the session is created if missing, the request is
    sent unless the credentials are not ASCII or the session is closed. *)
Lemma run_authorize_response (c : HTTPClient) (w : World) :
  is_ascii (client_id c ++ ":" ++ client_secret c) = true ->
  (forall s, _session c = Some s -> closed s = false) ->
  run E (authorize c) w =
  match json (auth_server E (posts w)) with
  | Some data =>
      run E (handle_token_response (auth_server E (posts w)) data (with_session c))
        (token_sent E c w)
  | None => (Completed (Raised JSONError), with_session c, token_sent E c w)
  end.
Proof.
  intros Hascii Hopen.
  unfold authorize, encode_ascii, session_send, response_json, get_session,
    with_session, token_sent, token_call.
  reduce. destruct (_session c) as [s|] eqn:Hs; reduce; rewrite Hascii; reduce.
  - rewrite Hs. reduce. rewrite (Hopen s eq_refl). reduce.
    destruct (json (auth_server E (posts w))); reduce; reflexivity.
  - destruct (json (auth_server E (posts w))); reduce; reflexivity.
Qed.

Lemma in_soft_statuses (st : Z) :
  In st [201; 202; 204; 304; 401; 404] ->
  (st =? 200) = false /\ mem_status st [201; 202; 204; 304; 401; 404] = true.
Proof.
  intros H. simpl in H.
  repeat (destruct H as [<-|H]; [split; reflexivity|]). contradiction.
Qed.

(** C4, as the code has it.  An [authorize()] call that receives a 200
    response whose body parses and has an [access_token] and an integer
    [expires_in] (within the range of [timedelta] and [datetime]) returns
    normally, stores that token and sets [expires_at] to the clock reading
    taken at that moment plus [expires_in] seconds, whatever the token state
    was before.  A call that receives a 400 response whose body parses
    raises and leaves [access_token] and [expires_at] as they were; the
    exception is [InvalidClientCredentials] whenever its message can be
    built from the body. *)
Theorem authorize_stores_or_rejects (c : HTTPClient) (w : World) (data : Json) :
  is_ascii (client_id c ++ ":" ++ client_secret c) = true ->
  (forall s, _session c = Some s -> closed s = false) ->
  json (auth_server E (posts w)) = Some data ->
  (status (auth_server E (posts w)) = 200 ->
   forall token n,
     getitem data "access_token" = Returned token ->
     getitem data "expires_in" = Returned (JInt n) ->
     - TIMEDELTA_MAX_DAYS <= n / DAY <= TIMEDELTA_MAX_DAYS ->
     0 <= clock E (ticks w) + n * MICRO < DATETIME_END ->
     result (run E (authorize c) w) = Completed (Returned tt) /\
     _access_token (client (run E (authorize c) w)) = Some token /\
     _expires_at (client (run E (authorize c) w)) = Some (clock E (ticks w) + n * MICRO)) /\
  (status (auth_server E (posts w)) = 400 ->
   (exists e, result (run E (authorize c) w) = Completed (Raised e)) /\
   (forall msg, HTTPException_init data 400 None = Returned msg ->
      result (run E (authorize c) w) =
      Completed (Raised (HTTPError KInvalidClientCredentials msg))) /\
   _access_token (client (run E (authorize c) w)) = _access_token c /\
   _expires_at (client (run E (authorize c) w)) = _expires_at c).
Proof.
  intros Hascii Hopen Hjson.
  rewrite (run_authorize_response c w Hascii Hopen), Hjson.
  unfold with_session, token_sent.
  split.
  - intros Hst token n Htoken Hsecs Htd Hdt.
    unfold handle_token_response, timedelta_of_seconds, datetime_add.
    rewrite Hst.
    assert (Hin : (- TIMEDELTA_MAX_DAYS <=? n / DAY) && (n / DAY <=? TIMEDELTA_MAX_DAYS) = true)
      by (apply andb_true_intro; split; apply Z.leb_le; lia).
    assert (Hsum : (0 <=? clock E (ticks w) + n * MICRO) &&
                   (clock E (ticks w) + n * MICRO <? DATETIME_END) = true)
      by (apply andb_true_intro; split; [apply Z.leb_le|apply Z.ltb_lt]; lia).
    destruct (_session c); reduce; rewrite Htoken; reduce; rewrite Hsecs; reduce;
      rewrite Hin; reduce; rewrite Hsum; reduce; repeat split.
  - intros Hst. unfold handle_token_response, raise_http.
    rewrite Hst.
    destruct (_session c); reduce;
      (destruct (HTTPException_init data 400 None) as [fmt|e] eqn:Hinit; reduce;
       repeat split; auto;
       try (eexists; reflexivity); intros msg Hmsg; congruence).
Qed.

(** C9, as the code has it.  An [authorize()] call that receives status
    201, 202, 204, 304, 401 or 404 from the auth endpoint, with a body that
    parses as JSON, logs the response at level ERROR and returns normally,
    leaving [access_token] and [expires_at] as they were. *)
Theorem authorize_soft_failure (c : HTTPClient) (w : World) (data : Json) :
  is_ascii (client_id c ++ ":" ++ client_secret c) = true ->
  (forall s, _session c = Some s -> closed s = false) ->
  json (auth_server E (posts w)) = Some data ->
  In (status (auth_server E (posts w))) [201; 202; 204; 304; 401; 404] ->
  result (run E (authorize c) w) = Completed (Returned tt) /\
  _access_token (client (run E (authorize c) w)) = _access_token c /\
  _expires_at (client (run E (authorize c) w)) = _expires_at c /\
  trace (world (run E (authorize c) w)) =
    (trace (token_sent E c w) ++
     [Noted (Log ERROR "Received %s with %s on authorization"
               [JInt (status (auth_server E (posts w))); data])])%list.
Proof.
  intros Hascii Hopen Hjson Hst.
  rewrite (run_authorize_response c w Hascii Hopen), Hjson.
  destruct (in_soft_statuses _ Hst) as [H200 Hsoft].
  unfold handle_token_response. rewrite H200, Hsoft. reduce.
  unfold with_session. destruct (_session c); repeat split.
Qed.

(** C5 at the failing input: [destroy()] on a client on which [authorize()]
    never ran reads the missing [_session] attribute and raises
    [AttributeError]. *)
Theorem destroy_before_authorize_raises (id secret : string) (w : World) :
  run E (destroy (HTTPClient_init id secret)) w =
  (Completed (Raised (AttributeError "_session")), HTTPClient_init id secret, w).
Proof. reflexivity. Qed.

(** With a session, [destroy] closes it if it is open and does nothing if
    it is closed: calling it twice is the same as calling it once. *)
Lemma destroy_with_session (c : HTTPClient) (w : World) (s : ClientSession) :
  _session c = Some s ->
  result (run E (destroy c) w) = Completed (Returned tt) /\
  _session (client (run E (destroy c) w)) = Some {| closed := true |} /\
  run E (destroy (client (run E (destroy c) w))) (world (run E (destroy c) w)) =
  (Completed (Returned tt), client (run E (destroy c) w), world (run E (destroy c) w)).
Proof.
  intros Hs. unfold destroy, get_session, session_close, close_session.
  reduce. rewrite Hs. reduce. destruct s as [[|]]; reduce.
  - rewrite Hs. repeat split.
  - rewrite Hs. reduce. repeat split.
Qed.

End AuthorizeClaims.

(** ** The session: when it appears, and what keeps it *)

Section Session.

Variable E : Env.

Lemma sessions_created_app (l l' : list Event) :
  sessions_created (l ++ l') = (sessions_created l + sessions_created l')%nat.
Proof.
  induction l as [|[h r|[|lvl fmt args]|] l IH]; simpl; auto.
Qed.

Lemma authorize_creates_session (c : HTTPClient) (w : World) :
  _session c = None ->
  _session (client (run E (authorize c) w)) = Some {| closed := false |} /\
  exists rest,
    trace (world (run E (authorize c) w)) = (trace w ++ Noted NewSession :: rest)%list /\
    sessions_created rest = O.
Proof.
  intros Hs. unfold_authorize. reduce. rewrite Hs.
  crunch; (split; [reflexivity|]);
    repeat rewrite <- app_assoc; eexists; (split; [reflexivity|reflexivity]).
Qed.

Lemma authorize_reuses_session (c : HTTPClient) (w : World) (s : ClientSession) :
  _session c = Some s ->
  _session (client (run E (authorize c) w)) = Some s /\
  sessions_created (trace (world (run E (authorize c) w))) = sessions_created (trace w).
Proof.
  intros Hs. unfold_authorize. reduce. rewrite Hs.
  crunch; (split; [congruence|]);
    repeat rewrite sessions_created_app; simpl; lia.
Qed.

(** C10. The first [authorize()] creates the session before anything is
    sent, whatever the outcome of the authorization; a later [authorize()]
    finds the session and creates none; [request()] never touches the
    attribute; [destroy()] is what closes it. *)
Theorem session_created_once (c : HTTPClient) (w : World) :
  (_session c = None ->
     _session (client (run E (authorize c) w)) = Some {| closed := false |} /\
     exists rest,
       trace (world (run E (authorize c) w)) = (trace w ++ Noted NewSession :: rest)%list /\
       sessions_created rest = O) /\
  (forall s, _session c = Some s ->
     _session (client (run E (authorize c) w)) = Some s /\
     sessions_created (trace (world (run E (authorize c) w))) = sessions_created (trace w)) /\
  (forall fuel route,
     _session (client (run E (request fuel route c) w)) = _session c) /\
  (forall s, _session c = Some s ->
     _session (client (run E (destroy c) w)) = Some {| closed := true |}).
Proof.
  split; [|split; [|split]].
  - apply authorize_creates_session.
  - intros s. apply authorize_reuses_session.
  - intros fuel route. apply request_session.
  - intros s Hs. apply (destroy_with_session E c w s Hs).
Qed.

(** C3, as the code has it.  [request()] fails with [NotAuthorized], before
    anything is observed of it, exactly when no session exists; and once
    [authorize()] has been called, whatever came of it, a session exists. *)
Theorem request_NotAuthorized_iff_no_session
    (fuel : nat) (route : Route) (c : HTTPClient) (w : World) :
  (_session c = None <->
   exists m, result (run E (request (S fuel) route c) w) = Completed (Raised (NotAuthorized m))) /\
  (_session c = None ->
   run E (request (S fuel) route c) w =
   (Completed (Raised (NotAuthorized "You need to authorize first before making any requests")),
    c, w)) /\
  _session (client (run E (authorize c) w)) <> None.
Proof.
  assert (Hnone : _session c = None ->
     run E (request (S fuel) route c) w =
     (Completed (Raised (NotAuthorized "You need to authorize first before making any requests")),
      c, w)).
  { intros Hs. simpl. unfold request_body. reduce. rewrite Hs. reflexivity. }
  split; [split|split].
  - intros Hs. rewrite (Hnone Hs). eexists; reflexivity.
  - intros [m Hm]. destruct (_session c) eqn:Hs; [|reflexivity].
    exfalso. apply (request_never_NotAuthorized E (S fuel) route c w m); [congruence|exact Hm].
  - exact Hnone.
  - destruct (authorize_frame E c w) as (_ & _ & _ & _ & Hs & _).
    rewrite Hs. discriminate.
Qed.

End Session.

(** ** From the call to the interpretation of the response *)

Section Dispatch.

Variable E : Env.

Ltac advance := reduce; repeat (push_run; reduce).

(** A call on an authorized client with a free lock, whose refresh (if one
    is due) returns normally, gets its request on the wire and hands the
    response to [interpret], with the lock taken. *)
Lemma request_dispatch again route c w s expires_at token data :
  _session c = Some s -> closed s = false ->
  _expires_at c = Some expires_at ->
  _access_token c = Some token ->
  held w = false ->
  (refresh_due (clock E (ticks w)) expires_at = true ->
   result (run E (authorize c) (tick w)) = Completed (Returned tt)) ->
  json (api_server E (requests w)) = Some data ->
  exists c1 w1,
    run E (request_body again route c) w =
    released (run E (interpret again route (api_server E (requests w)) data c1) w1) /\
    held w1 = true /\ requests w1 = S (requests w) /\ _session c1 = Some s.
Proof.
  intros Hs Hopen Hexp Htok Hfree Hpre Hjson.
  unfold_request. advance. rewrite Hs. advance. rewrite Hexp. advance.
  destruct (refresh_due (clock E (ticks w)) expires_at) eqn:Hdue.
  - specialize (Hpre eq_refl).
    destruct (authorize_frame E c (tick w)) as (Hheld & Hreq & _ & _ & Hses & _).
    destruct (authorize_keeps_token E c (tick w)) as [Hkeep _].
    destruct (run E (authorize c) (tick w)) as [[ra ca] wa].
    unfold result, client, world in *; simpl in Hpre, Hheld, Hreq, Hses, Hkeep.
    subst ra. advance.
    destruct (_access_token ca) as [token'|] eqn:Htok';
      [|exfalso; apply Hkeep; [congruence|reflexivity]].
    advance. rewrite Hheld, Hfree. advance.
    rewrite Hses, Hs. advance. rewrite Hopen. advance.
    rewrite Hreq, Hjson. advance.
    eexists _, _. split; [reflexivity|]. simpl. rewrite Hses, Hs. auto.
  - advance. rewrite Htok. advance. rewrite Hfree. advance.
    rewrite Hs. advance. rewrite Hopen. advance. rewrite Hjson. advance.
    eexists _, _. split; [reflexivity|]. simpl. auto.
Qed.

Ltac boolZ :=
  repeat match goal with
  | H : (_ && _) = true |- _ => apply andb_prop in H; destruct H
  | H : (_ && _) = false |- _ => apply andb_false_iff in H; destruct H
  | H : (_ || _) = true |- _ => apply orb_prop in H; destruct H
  | H : (_ || _) = false |- _ => apply orb_false_elim in H; destruct H
  | H : (_ =? _) = true |- _ => apply Z.eqb_eq in H
  | H : (_ =? _) = false |- _ => apply Z.eqb_neq in H
  | H : (_ <=? _) = true |- _ => apply Z.leb_le in H
  | H : (_ <=? _) = false |- _ => apply Z.leb_gt in H
  | H : (_ <? _) = true |- _ => apply Z.ltb_lt in H
  | H : (_ <? _) = false |- _ => apply Z.ltb_ge in H
  end.

(** C7, as the code has it.  On an authorized client with a free lock (a
    refresh, if the freshness test asks for one, returning normally) and for
    a response whose body parses as JSON, the status decides the outcome of
    [request()]: 200-299 returns the parsed body; and whenever
    [HTTPException.__init__] can build its message [msg] from the body (it
    reads [error], and [error.message] when there is no
    [error_description]), 403 raises [Forbidden], 404 [NotFound], 500, 502
    and 503 [ServerError]; 429 and every other status outside 200-299 and
    401 raise the plain [HTTPException]. *)
Theorem status_interpretation
    (fuel : nat) (route : Route) (c : HTTPClient) (w : World)
    (s : ClientSession) (expires_at : Z) (token data : Json) :
  _session c = Some s -> closed s = false ->
  _expires_at c = Some expires_at ->
  _access_token c = Some token ->
  held w = false ->
  (refresh_due (clock E (ticks w)) expires_at = true ->
   result (run E (authorize c) (tick w)) = Completed (Returned tt)) ->
  json (api_server E (requests w)) = Some data ->
  let st := status (api_server E (requests w)) in
  let out := result (run E (request (S fuel) route c) w) in
  (200 <= st < 300 -> out = Completed (Returned data)) /\
  (forall msg, HTTPException_init data st None = Returned msg ->
     (st = 403 -> out = Completed (Raised (HTTPError KForbidden msg))) /\
     (st = 404 -> out = Completed (Raised (HTTPError KNotFound msg))) /\
     (In st [500; 502; 503] -> out = Completed (Raised (HTTPError KServerError msg))) /\
     (st = 429 -> out = Completed (Raised (HTTPError KHTTPException msg))) /\
     (~ 200 <= st < 300 -> ~ In st [401; 403; 404; 500; 502; 503] ->
      out = Completed (Raised (HTTPError KHTTPException msg)))).
Proof.
  intros Hs Hopen Hexp Htok Hfree Hpre Hjson st out.
  destruct (request_dispatch (request fuel) route c w s expires_at token data
              Hs Hopen Hexp Htok Hfree Hpre Hjson) as (c1 & w1 & Hrun & _).
  assert (Hout : out =
    result (run E (interpret (request fuel) route (api_server E (requests w)) data c1) w1)).
  { unfold out. simpl request. rewrite Hrun. apply result_released. }
  rewrite Hout, run_interpret. fold st. unfold mem_status, existsb, raise_http.
  split; [|intros msg Hmsg; rewrite Hmsg; repeat split].
  all: intros; simpl In in *;
    repeat match goal with
    | |- context [if ?b then _ else _] => destruct b eqn:?
    end; boolZ; solve [reflexivity | exfalso; lia].
Qed.

(** After a 401 the client re-authorizes and calls itself with the lock
    still taken: the nested call sends nothing and returns nothing, whatever
    the servers answer from then on. *)
Lemma request_401_not_retried
    (fuel : nat) (route : Route) (c : HTTPClient) (w : World)
    (s : ClientSession) (expires_at : Z) (token data : Json) :
  _session c = Some s -> closed s = false ->
  _expires_at c = Some expires_at ->
  _access_token c = Some token ->
  held w = false ->
  (refresh_due (clock E (ticks w)) expires_at = true ->
   result (run E (authorize c) (tick w)) = Completed (Returned tt)) ->
  json (api_server E (requests w)) = Some data ->
  status (api_server E (requests w)) = 401 ->
  requests (world (run E (request (S (S fuel)) route c) w)) = S (requests w) /\
  forall d, result (run E (request (S (S fuel)) route c) w) <> Completed (Returned d).
Proof.
  intros Hs Hopen Hexp Htok Hfree Hpre Hjson Hst.
  destruct (request_dispatch (request (S fuel)) route c w s expires_at token data
              Hs Hopen Hexp Htok Hfree Hpre Hjson) as (c1 & w1 & Hrun & Hheld & Hreq & _).
  change (request (S (S fuel)) route c) with (request_body (request (S fuel)) route c).
  rewrite Hrun, requests_released, result_released, run_interpret, Hst. reduce.
  destruct (authorize_frame E c1 w1) as (Hh & Hr & [o Ho] & _).
  destruct (run E (authorize c1) w1) as [[ra ca] wa].
  unfold result, client, world in Hh, Hr, Ho; simpl in Hh, Hr, Ho. subst ra.
  destruct o as [[]|e]; reduce.
  - change (request (S fuel) route ca) with (request_body (request fuel) route ca).
    destruct (request_body_held E (request fuel) route ca wa) as (_ & _ & Hno & Hsame & _);
      [congruence|].
    split; [congruence|exact Hno].
  - split; [congruence|discriminate].
Qed.

End Dispatch.

(** ** The retry after a 401 and the freshness test, on concrete runs *)

Import Scenario.

(** C1 at the failing input.  The client holds token T1, an hour from
    expiry; the data endpoint answers 401 once and 200 ever after.  The call
    sends its request with T1, re-authorizes once (token T2), calls itself
    and stops for ever at the lock it still holds: no second request is
    sent, and the call neither returns nor raises.  More unfoldings of the
    recursion change nothing. *)
Theorem retry_after_401_blocks (n : nat) :
  let x := run (expired_once (T0 + seconds 10))
               (request (S (S n)) get_track client_T1) genesis in
  result x = Blocked /\
  calls (trace (world x)) = [data_call get_track (JStr "T1"); token_call client_T1] /\
  _access_token (client x) = Some (JStr "T2") /\
  held (world x) = true.
Proof.
  intros x. unfold x.
  rewrite (proj1 (request_fuel_enough _ n get_track client_T1 genesis)).
  vm_compute. repeat split.
Qed.

(** X9.  The freshness test of the code: a refresh is due exactly when the token
    expired between 0 and 11 seconds ago, whole days apart. *)
Lemma refresh_due_spec (now expires_at : Z) :
  refresh_due now expires_at = true <->
  exists k, 0 <= now - expires_at - k * (DAY * MICRO) < 11 * MICRO.
Proof.
  unfold refresh_due, timedelta_seconds, DAY, MICRO.
  rewrite Z.leb_le. set (td := now - expires_at). split.
  - intros H. exists (td / 1000000 / 86400).
    pose proof (Z.div_mod (td / 1000000) 86400 ltac:(lia)) as Hq.
    pose proof (Z.mod_pos_bound (td / 1000000) 86400 ltac:(lia)) as Hr.
    pose proof (Z.div_mod td 1000000 ltac:(lia)) as Hq'.
    pose proof (Z.mod_pos_bound td 1000000 ltac:(lia)) as Hr'.
    lia.
  - intros [k Hk].
    replace td with (td - k * (86400 * 1000000) + k * 86400 * 1000000) by lia.
    rewrite Z.div_add by lia.
    rewrite Z.mod_add by lia.
    assert (0 <= (td - k * (86400 * 1000000)) / 1000000 < 11).
    { split; [apply Z.div_pos; lia | apply Z.div_lt_upper_bound; lia]. }
    rewrite Z.mod_small; lia.
Qed.

(** C2 at the failing inputs.  With 5 seconds of validity left
    ([expires_at - now] = 5 s), and with a token that expired an hour ago,
    [request()] sends the data request with the old token and no
    authorization request at all; with 86395 seconds of validity left it
    re-authorizes first. *)
Theorem freshness_test_misfires :
  let soon := run (constant ok_T2 ok_track (T0 + seconds 3595))
                  (request 2 get_track client_T1) genesis in
  let late := run (constant ok_T2 ok_track (T0 + seconds 7200))
                  (request 2 get_track client_T1) genesis in
  let early := run (constant ok_T2 ok_track (T0 + seconds 5))
                   (request 2 get_track client_day) genesis in
  (result soon = Completed (Returned track) /\
   calls (trace (world soon)) = [data_call get_track (JStr "T1")]) /\
  (result late = Completed (Returned track) /\
   calls (trace (world late)) = [data_call get_track (JStr "T1")]) /\
  (result early = Completed (Returned track) /\
   calls (trace (world early)) = [token_call client_day; data_call get_track (JStr "T2")]).
Proof. vm_compute. repeat split. Qed.

(** ** The message of an exception *)

Lemma append_assoc (a b c : string) : (a ++ b) ++ c = a ++ b ++ c.
Proof. induction a as [|x a IH]; simpl; [reflexivity | rewrite IH; reflexivity]. Qed.

(** C8, as the code has it.  The five HTTP failure kinds are all built by
    [HTTPException.__init__] from the parsed body, the status code and an
    optional extra message; [NotAuthorized] is built from a message alone.
    For a body whose [error] is an object with a [message] and whose
    [error_description] is absent or null, the text is
    [<status> <error>: <error.message>], followed by [ (<message>)] when the
    extra message is given. *)
Theorem http_error_message
    (k : HTTPKind) (d : list (string * Json)) (status_code : Z)
    (message : option string) (err m : Json) :
  assoc "error" d = Some err ->
  dict_get d "error_description" = JNull ->
  getitem err "message" = Returned m ->
  let text := str_of_int status_code ++ " " ++ str err ++ ": " ++ str m in
  HTTPException_init (JDict d) status_code message =
    Returned (match message with
              | Some extra => text ++ " (" ++ extra ++ ")"
              | None => text
              end) /\
  @raise_http Json k (JDict d) status_code = Raised (HTTPError k text) /\
  (forall msg, NotAuthorized_init msg = NotAuthorized msg).
Proof.
  intros Herr Hdesc Hm text.
  assert (Hinit : forall message',
    HTTPException_init (JDict d) status_code message' =
    Returned (match message' with
              | Some extra => text ++ " (" ++ extra ++ ")"
              | None => text
              end)).
  { intros message'. unfold HTTPException_init, obind, getitem at 1.
    rewrite Herr, Hdesc. simpl is_not_None. cbv iota. rewrite Hm. unfold text.
    destruct message'; rewrite ?append_assoc; simpl; rewrite ?append_assoc; reflexivity. }
  split; [apply Hinit|split; [|reflexivity]].
  unfold raise_http. rewrite (Hinit None). reflexivity.
Qed.

(** C8 as stated fails twice: an [error_description] in the body does not
    reach the message (the text shows [True] in its place), and the
    [NotAuthorized] that [request()] raises is built before any response
    exists. *)
Lemma error_description_lost :
  HTTPException_init auth_error 400 None = Returned "400 invalid_client: True" /\
  run (constant ok_T1 ok_track T0) (request 1 get_track fresh_client) genesis =
  (Completed (Raised (NotAuthorized "You need to authorize first before making any requests")),
   fresh_client, genesis).
Proof. split; reflexivity. Qed.

Lemma http_error_message_witness :
  HTTPException_init (api_error 404 "Not found.") 404 (Some "track") =
    Returned "404 {'status': 404, 'message': 'Not found.'}: Not found. (track)" /\
  @raise_http Json KNotFound (api_error 404 "Not found.") 404 =
    Raised (HTTPError KNotFound "404 {'status': 404, 'message': 'Not found.'}: Not found.").
Proof.
  split.
  - apply (proj1 (http_error_message KNotFound
             [("error", JDict [("status", JInt 404); ("message", JStr "Not found.")])]
             404 (Some "track")
             (JDict [("status", JInt 404); ("message", JStr "Not found.")])
             (JStr "Not found.") eq_refl eq_refl eq_refl)).
  - apply (proj1 (proj2 (http_error_message KNotFound
             [("error", JDict [("status", JInt 404); ("message", JStr "Not found.")])]
             404 None
             (JDict [("status", JInt 404); ("message", JStr "Not found.")])
             (JStr "Not found.") eq_refl eq_refl eq_refl))).
Defined.

(** ** The claims on concrete runs *)

(** C3 as stated fails: after an [authorize()] that was refused with 400,
    no token is stored, yet [request()] does not raise [NotAuthorized]; it
    fails on the missing [_expires_at] attribute. *)
Lemma request_after_refused_authorize :
  let E := constant (mkResponse 400 (Some auth_error)) ok_track T0 in
  let a := run E (authorize fresh_client) genesis in
  result a =
    Completed (Raised (HTTPError KInvalidClientCredentials "400 invalid_client: True")) /\
  _access_token (client a) = None /\
  run E (request 2 get_track (client a)) (world a) =
    (Completed (Raised (AttributeError "_expires_at")), client a, tick (world a)).
Proof. vm_compute. repeat split. Qed.

(** C4 as stated fails.  At a 400: the body is parsed before the status is
    looked at, so an answer that is not JSON raises the parser's error; and
    from an error body without [error_description] (it is optional) the
    exception cannot be built, so [TypeError] comes out instead of
    [InvalidClientCredentials].  The token state is kept in both cases.  At
    a 200: the body is stored as it is read, so an answer without
    [expires_in] leaves the new token beside the old expiry. *)
Lemma authorize_400_not_InvalidClientCredentials :
  let answered st body := run (constant (mkResponse st body) ok_track T0)
                              (authorize client_T1) genesis in
  let refused := answered 400 in
  let partial := answered 200 (Some (JDict [("access_token", JStr "T2")])) in
  (result (refused None) = Completed (Raised JSONError) /\
   _access_token (client (refused None)) = Some (JStr "T1")) /\
  (result (refused (Some (JDict [("error", JStr "invalid_client")]))) =
     Completed (Raised TypeError) /\
   _access_token (client (refused (Some (JDict [("error", JStr "invalid_client")])))) =
     Some (JStr "T1")) /\
  (result partial = Completed (Raised (KeyError "expires_in")) /\
   _access_token (client partial) = Some (JStr "T2") /\
   _expires_at (client partial) = Some (T0 + seconds 3600)).
Proof. vm_compute. repeat split. Qed.

(** C7 as stated fails: the body is parsed before the status is
    interpreted, so a 502 whose body is not JSON raises the parser's error,
    not [ServerError]; where the body lacks the error detail the exception
    text is built from, the constructor's own exception comes out
    ([KeyError] for a 404 with an empty object, [TypeError] for a 304 with a
    null body); and a 401, a non-2xx status as well, raises nothing at
    all. *)
Lemma status_needs_error_body :
  let answer st body :=
    result (run (constant ok_T2 (mkResponse st body) (T0 + seconds 10))
                (request 2 get_track client_T1) genesis) in
  answer 502 None = Completed (Raised JSONError) /\
  answer 404 (Some (JDict [])) = Completed (Raised (KeyError "error")) /\
  answer 304 (Some JNull) = Completed (Raised TypeError) /\
  answer 401 (Some (api_error 401 "The access token expired")) = Blocked.
Proof. vm_compute. repeat split. Qed.

(** C9 as stated fails: [authorize()] parses the body before it looks at
    the status, so a 204 or a 304 whose body is not JSON raises instead of
    returning normally.  The token state is kept. *)
Lemma authorize_soft_status_unparsed_body :
  let after st := run (constant (mkResponse st None) ok_track T0)
                      (authorize client_T1) genesis in
  (result (after 204) = Completed (Raised JSONError) /\
   _access_token (client (after 204)) = Some (JStr "T1") /\
   _expires_at (client (after 204)) = Some (T0 + seconds 3600)) /\
  result (after 304) = Completed (Raised JSONError).
Proof. vm_compute. repeat split. Qed.

Lemma request_NotAuthorized_witness :
  run (constant ok_T1 ok_track T0) (request 1 get_track fresh_client) genesis =
  (Completed (Raised (NotAuthorized "You need to authorize first before making any requests")),
   fresh_client, genesis).
Proof.
  apply (proj1 (proj2 (request_NotAuthorized_iff_no_session
                         (constant ok_T1 ok_track T0) 0 get_track fresh_client genesis))).
  reflexivity.
Defined.

Lemma authorize_stores_or_rejects_witness :
  (let after := run (constant ok_T1 ok_track T0) (authorize fresh_client) genesis in
   result after = Completed (Returned tt) /\
   _access_token (client after) = Some (JStr "T1") /\
   _expires_at (client after) = Some (T0 + 3600 * MICRO)) /\
  (let after := run (constant (mkResponse 400 (Some auth_error)) ok_track T0)
                    (authorize client_T1) genesis in
   result after =
     Completed (Raised (HTTPError KInvalidClientCredentials "400 invalid_client: True")) /\
   _access_token (client after) = Some (JStr "T1") /\
   _expires_at (client after) = Some (T0 + seconds 3600)).
Proof.
  split.
  - apply (proj1 (authorize_stores_or_rejects (constant ok_T1 ok_track T0)
                    fresh_client genesis (token_body "T1" 3600)
                    eq_refl ltac:(discriminate) eq_refl) eq_refl (JStr "T1") 3600
             eq_refl eq_refl).
    + vm_compute. split; discriminate.
    + vm_compute. split; [discriminate|reflexivity].
  - destruct (proj2 (authorize_stores_or_rejects
                       (constant (mkResponse 400 (Some auth_error)) ok_track T0)
                       client_T1 genesis auth_error
                       eq_refl ltac:(intros s H; injection H as <-; reflexivity) eq_refl)
                    eq_refl) as (_ & Hraise & Htok & Hexp).
    split; [apply Hraise; reflexivity|split; assumption].
Defined.

Lemma authorize_soft_failure_witness :
  let after := run (constant unauthorized ok_track T0) (authorize client_T1) genesis in
  result after = Completed (Returned tt) /\
  _access_token (client after) = Some (JStr "T1") /\
  _expires_at (client after) = Some (T0 + seconds 3600) /\
  trace (world after) =
    [Sent (token_call client_T1) unauthorized;
     Noted (Log ERROR "Received %s with %s on authorization"
              [JInt 401; api_error 401 "The access token expired"])].
Proof.
  apply (authorize_soft_failure (constant unauthorized ok_track T0) client_T1 genesis
           (api_error 401 "The access token expired") eq_refl
           ltac:(intros s H; injection H as <-; reflexivity) eq_refl).
  simpl. tauto.
Defined.

Lemma session_created_once_witness :
  let E := constant (mkResponse 400 (Some auth_error)) ok_track T0 in
  let first := run E (authorize fresh_client) genesis in
  let second := run E (authorize (client first)) (world first) in
  _session (client first) = Some {| closed := false |} /\
  _session (client second) = Some {| closed := false |} /\
  sessions_created (trace (world second)) = sessions_created (trace (world first)) /\
  _session (client (run E (destroy (client second)) (world second))) =
    Some {| closed := true |}.
Proof.
  intros E first second.
  pose proof (proj1 (session_created_once E fresh_client genesis) eq_refl) as [H1 _].
  pose proof (proj1 (proj2 (session_created_once E (client first) (world first)))
                {| closed := false |} H1) as [H2 H3].
  pose proof (proj2 (proj2 (proj2 (session_created_once E (client second) (world second))))
                {| closed := false |} H2) as H4.
  exact (conj H1 (conj H2 (conj H3 H4))).
Defined.

Lemma status_interpretation_witness :
  let answer st body := result (run (constant ok_T2 (mkResponse st (Some body)) (T0 + seconds 10))
                                    (request 1 get_track client_T1) genesis) in
  answer 200 track = Completed (Returned track) /\
  answer 299 track = Completed (Returned track) /\
  answer 403 (api_error 403 "Forbidden") =
    Completed (Raised (HTTPError KForbidden "403 {'status': 403, 'message': 'Forbidden'}: Forbidden")) /\
  answer 404 (api_error 404 "Not found.") =
    Completed (Raised (HTTPError KNotFound "404 {'status': 404, 'message': 'Not found.'}: Not found.")) /\
  answer 503 (api_error 503 "Unavailable") =
    Completed (Raised (HTTPError KServerError "503 {'status': 503, 'message': 'Unavailable'}: Unavailable")) /\
  answer 429 (api_error 429 "Slow down") =
    Completed (Raised (HTTPError KHTTPException "429 {'status': 429, 'message': 'Slow down'}: Slow down")) /\
  answer 300 (api_error 300 "Choices") =
    Completed (Raised (HTTPError KHTTPException "300 {'status': 300, 'message': 'Choices'}: Choices")).
Proof.
  intros answer.
  pose (at_status := fun st body =>
    status_interpretation (constant ok_T2 (mkResponse st (Some body)) (T0 + seconds 10))
      0 get_track client_T1 genesis {| closed := false |} (T0 + seconds 3600) (JStr "T1") body
      eq_refl eq_refl eq_refl eq_refl eq_refl
      ltac:(intros H; vm_compute in H; discriminate H) eq_refl).
  refine (conj _ (conj _ (conj _ (conj _ (conj _ (conj _ _)))))).
  - apply (proj1 (at_status 200 track)). simpl. lia.
  - apply (proj1 (at_status 299 track)). simpl. lia.
  - destruct (proj2 (at_status 403 (api_error 403 "Forbidden")) _ eq_refl)
      as (H & _). apply H. reflexivity.
  - destruct (proj2 (at_status 404 (api_error 404 "Not found.")) _ eq_refl)
      as (_ & H & _). apply H. reflexivity.
  - destruct (proj2 (at_status 503 (api_error 503 "Unavailable")) _ eq_refl)
      as (_ & _ & H & _). apply H. simpl. tauto.
  - destruct (proj2 (at_status 429 (api_error 429 "Slow down")) _ eq_refl)
      as (_ & _ & _ & H & _). apply H. reflexivity.
  - destruct (proj2 (at_status 300 (api_error 300 "Choices")) _ eq_refl)
      as (_ & _ & _ & _ & H). apply H.
    + simpl. lia.
    + simpl. intros H'. repeat (destruct H' as [H'|H']; [discriminate H'|]). exact H'.
Defined.

(** ** Many calls at once: the lock discipline *)

Section Discipline.

Lemma quiet_bind {A B} (t : Step A) (f : A -> Coro B) :
  quiet t -> (forall a c, quiet (f a c)) -> quiet (bind_step t f).
Proof.
  intros Ht Hf. induction Ht; simpl; try (constructor; auto).
  destruct o; [apply Hf | constructor].
Qed.

Lemma quiet_bind_outside {A B} (t : Step A) (f : A -> Coro B) :
  quiet t -> (forall a c, outside (f a c)) -> outside (bind_step t f).
Proof.
  intros Ht Hf. induction Ht; simpl; try (constructor; auto).
  destruct o; [apply Hf | constructor].
Qed.

Lemma body_bind {A B} (t : Step A) (f : A -> Coro B) :
  body_ok t -> (forall a c, body_ok (f a c)) -> body_ok (bind_step t f).
Proof.
  intros Ht Hf. induction Ht; simpl; try (constructor; auto).
  destruct o; [apply Hf | constructor].
Qed.

Lemma quiet_body {A} (t : Step A) : quiet t -> body_ok t.
Proof. intros Ht. induction Ht; constructor; auto. Qed.

Lemma outside_body {A} (t : Step A) : outside t -> body_ok t.
Proof. intros Ht. induction Ht; constructor; auto. Qed.

Lemma release_inside {A} (t : Step A) : body_ok t -> inside (release_on_exit t).
Proof.
  intros Ht. induction Ht; simpl; try (constructor; auto).
  constructor.
Qed.

Lemma quiet_handle_token_response (response : Response) (data : Json) (c : HTTPClient) :
  quiet (handle_token_response response data c).
Proof.
  unfold handle_token_response, timedelta_of_seconds, datetime_add, raise_http.
  repeat (cbn_run; first [constructor | intro | break_match]).
Qed.

Lemma quiet_authorize (c : HTTPClient) : quiet (authorize c).
Proof.
  unfold authorize, encode_ascii, session_send, response_json, get_session.
  repeat (cbn_run;
          first [apply quiet_handle_token_response | constructor | intro | break_match]).
Qed.

Lemma body_interpret (again : Route -> Coro Json) route response data c :
  (forall c', body_ok (again route c')) ->
  body_ok (interpret again route response data c).
Proof.
  intros Hag. unfold interpret, raise_http.
  repeat (cbn_run;
          first [ apply Hag
                | apply body_bind; [apply quiet_body, quiet_authorize | intros ? ?]
                | constructor | intro | break_match]).
Qed.

Lemma body_dispatch (again : Route -> Coro Json) route token c :
  (forall c', outside (again route c')) ->
  body_ok
    ((emit (Log DEBUG "Dispatching %s request on %s with %s"
              [JStr (method route); JStr (url route); log_params (params route)]) ;;;
      response <- session_send (REQUEST (method route) (url route)
                                  ("Bearer " ++ str token) (params route)) ;;
      emit (Log DEBUG "%s on %s with %s has responded with %s"
              [JStr (method route); JStr (url route); log_params (params route);
               JInt (status response)]) ;;;
      data <- response_json response ;;
      interpret again route response data) c).
Proof.
  intros Hag. unfold session_send, response_json, get_session.
  repeat (cbn_run;
          first [ apply body_interpret; intros ?; apply outside_body, Hag
                | constructor | intro | break_match]).
Qed.

Lemma outside_request_body (again : Route -> Coro Json) route c :
  (forall c', outside (again route c')) ->
  outside (request_body again route c).
Proof.
  intros Hag.
  unfold request_body, get_expires_at, get_access_token.
  apply quiet_bind_outside; [constructor|]. intros c0 c1.
  destruct (_session c0) as [sess|]; [|constructor].
  apply quiet_bind_outside; [repeat constructor|]. intros now c2.
  apply quiet_bind_outside.
  { cbn_run. destruct (_expires_at c2); constructor. }
  intros expires_at c3.
  apply quiet_bind_outside.
  { destruct (refresh_due now expires_at); [apply quiet_authorize | constructor]. }
  intros _ c4.
  apply quiet_bind_outside.
  { cbn_run. destruct (_access_token c4); constructor. }
  intros token c5.
  unfold with_lock. constructor. intros c6.
  apply release_inside, body_dispatch, Hag.
Qed.

Lemma outside_request (fuel : nat) (route : Route) (c : HTTPClient) :
  outside (request fuel route c).
Proof.
  revert c. induction fuel as [|fuel IH]; intros c; simpl.
  - constructor.
  - apply outside_request_body. exact IH.
Qed.

End Discipline.

(** ** Many calls at once: the loop *)

Section Scheduler.

Context {A : Type}.

(** One uninterrupted stretch of a coroutine keeps the discipline: it ends
    outside with the lock as it found it, or inside with the lock it took. *)
Lemma settle_discipline (t : Step A) :
  forall (now : nat -> Z) (n : nat),
    (outside t -> forall l,
       let '(l', _, tk') := settle now n l t in
       (l' = l /\ task_out tk') \/ (l = false /\ l' = true /\ task_in tk')) /\
    (inside t ->
       let '(l', _, tk') := settle now n true t in
       (l' = true /\ task_in tk') \/ (l' = false /\ task_out tk')).
Proof.
  induction t as [o c|c|k IH|e k IH|h c k IH|c k IH|k IH|c k IH]; intros now n; simpl.
  - split; [intros _ l; left; split; [reflexivity|exact I] | intros H; inversion H].
  - split; [intros _ l; left; split; [reflexivity|exact I] | intros _; left; split; [reflexivity|exact I]].
  - split.
    + intros H l. inversion H; subst. apply (IH (now n) now (S n)); auto.
    + intros H. inversion H; subst. apply (IH (now n) now (S n)); auto.
  - split.
    + intros H l. inversion H; subst. apply (IH now n); auto.
    + intros H. inversion H; subst. apply (IH now n); auto.
  - split.
    + intros H l. inversion H; subst. left. split; [reflexivity|]. simpl. auto.
    + intros H. inversion H; subst. left. split; [reflexivity|]. simpl. auto.
  - split.
    + intros H l. inversion H; subst. destruct l.
      * left. split; [reflexivity|]. simpl. auto.
      * destruct (IH c now n) as [_ Hin]. specialize (Hin (H1 c)).
        destruct (settle now n true (k c)) as [[l' c'] tk'].
        destruct Hin as [[-> Htk]|[-> Htk]]; [right|left]; auto.
    + intros _. left. split; [reflexivity|exact I].
  - split.
    + intros H. inversion H.
    + intros H. inversion H; subst.
      destruct (IH now n) as [Hout _]. specialize (Hout H1 false).
      destruct (settle now n false k) as [[l' c'] tk'].
      destruct Hout as [[-> Htk]|(_ & -> & Htk)]; [right|left]; auto.
  - split.
    + intros H l. inversion H; subst. left. split; [reflexivity|]. simpl. auto.
    + intros H. inversion H; subst. left. split; [reflexivity|]. simpl. auto.
Qed.

Lemma nth_error_set_nth (l : list (Task A)) (i j : nat) (x tk : Task A) :
  nth_error (set_nth i x l) j = Some tk ->
  (i = j /\ tk = x) \/ (i <> j /\ nth_error l j = Some tk).
Proof.
  revert i j. induction l as [|y l IH]; intros i j H.
  - destruct i, j; discriminate.
  - destruct i as [|i], j as [|j]; simpl in H.
    + left. split; congruence.
    + right. split; [discriminate|exact H].
    + right. split; [discriminate|exact H].
    + destruct (IH i j H) as [[-> ->]|[Hne Hn]]; [left|right]; auto.
Qed.

Lemma length_set_nth (l : list (Task A)) (i : nat) (x : Task A) :
  List.length (set_nth i x l) = List.length l.
Proof.
  revert i. induction l as [|y l IH]; intros [|i]; simpl; auto.
Qed.

Lemma turn_disciplined (s : State A) (ch : Choice) :
  disciplined s -> disciplined (turn s ch).
Proof.
  intros Hinv. unfold turn.
  destruct (nth_error (tasks s) (who ch)) as [tk|] eqn:Htk; [|exact Hinv].
  destruct (resume ch (shared s) (lock s) tk) as [[l0 t]|] eqn:Hres; [|exact Hinv].
  destruct (settle (readings ch) 0 l0 t) as [[l' c'] tk'] eqn:Hset.
  assert (Hlen : (who ch < List.length (tasks s))%nat)
    by (apply nth_error_Some; congruence).
  destruct Hinv as (holder & Htasks & Hlock).
  pose proof (Htasks _ _ Htk) as Hme.
  pose proof (settle_discipline t (readings ch) 0) as [Hout Hin].
  (* the typing of the resumed coroutine, by who holds the lock *)
  assert (Hcases :
    (l' = lock s /\ task_out tk' /\ holder <> Some (who ch)) \/
    (l' = true /\ task_in tk' /\ (holder = Some (who ch) \/ holder = None)) \/
    (l' = false /\ task_out tk' /\ (holder = Some (who ch) \/ holder = None))).
  { destruct holder as [h|].
    - destruct Hlock as [Hlock _].
      destruct (Nat.eqb h (who ch)) eqn:Hh.
      + apply Nat.eqb_eq in Hh. subst h.
        assert (Hstep : l0 = true /\ inside t).
        { destruct tk; simpl in Hme, Hres; try contradiction.
          - injection Hres as <- <-. auto.
          - rewrite Hlock in Hres. discriminate.
          - injection Hres as <- <-. auto.
          - discriminate. }
        destruct Hstep as [-> Hstep]. specialize (Hin Hstep). rewrite Hset in Hin.
        destruct Hin as [[-> H]|[-> H]]; right; [left|right]; auto.
      + assert (Hstep : l0 = lock s /\ outside t).
        { destruct tk; simpl in Hme, Hres; try discriminate.
          - injection Hres as <- <-. auto.
          - destruct h0; [|contradiction]. injection Hres as <- <-. auto.
          - rewrite Hlock in Hres. discriminate.
          - injection Hres as <- <-. auto. }
        destruct Hstep as [-> Hstep]. specialize (Hout Hstep (lock s)). rewrite Hset in Hout.
        destruct Hout as [[-> H]|(Hl & _)]; [|congruence].
        left. repeat split; auto. intros Heq. injection Heq as ->.
        rewrite Nat.eqb_refl in Hh. discriminate.
    - destruct tk; simpl in Hme, Hres; try discriminate.
      + injection Hres as <- <-. specialize (Hout (Hme _) (lock s)). rewrite Hset in Hout.
        destruct Hout as [[-> H]|(_ & -> & H)].
        * right; right. rewrite Hlock. auto.
        * right; left. auto.
      + destruct h; [|contradiction]. injection Hres as <- <-.
        specialize (Hout (Hme _ _) (lock s)). rewrite Hset in Hout.
        destruct Hout as [[-> H]|(_ & -> & H)].
        * right; right. rewrite Hlock. auto.
        * right; left. auto.
      + rewrite Hlock in Hres. injection Hres as <- <-.
        specialize (Hin (Hme _)). rewrite Hset in Hin.
        destruct Hin as [[-> H]|[-> H]]; right; [left|right]; auto.
      + injection Hres as <- <-. specialize (Hout (Hme _) (lock s)). rewrite Hset in Hout.
        destruct Hout as [[-> H]|(_ & -> & H)].
        * right; right. rewrite Hlock. auto.
        * right; left. auto. }
  destruct Hcases as [(-> & Hnew & Hother)|[(-> & Hnew & Hmine)|(-> & Hnew & Hmine)]].
  - exists holder. simpl. split.
    + intros i tk0 Hi. apply nth_error_set_nth in Hi.
      destruct Hi as [[<- ->]|[Hne Hi]].
      * destruct holder as [h|]; [|exact Hnew].
        destruct (Nat.eqb h (who ch)) eqn:Hh; [|exact Hnew].
        apply Nat.eqb_eq in Hh. congruence.
      * apply Htasks. exact Hi.
    + rewrite length_set_nth. exact Hlock.
  - exists (Some (who ch)). simpl. split.
    + intros i tk0 Hi. apply nth_error_set_nth in Hi.
      destruct Hi as [[<- ->]|[Hne Hi]].
      * rewrite Nat.eqb_refl. exact Hnew.
      * apply Nat.eqb_neq in Hne. rewrite Hne.
        specialize (Htasks _ _ Hi). destruct Hmine as [->| ->]; [|exact Htasks].
        rewrite Hne in Htasks. exact Htasks.
    + rewrite length_set_nth. auto.
  - exists None. simpl. split; [|reflexivity].
    intros i tk0 Hi. apply nth_error_set_nth in Hi.
    destruct Hi as [[<- ->]|[Hne Hi]]; [exact Hnew|].
    specialize (Htasks _ _ Hi). destruct Hmine as [->| ->]; [|exact Htasks].
    apply Nat.eqb_neq in Hne. rewrite Hne in Htasks. exact Htasks.
Qed.

Lemma exec_disciplined (sch : list Choice) (s : State A) :
  disciplined s -> disciplined (exec sch s).
Proof.
  revert s. induction sch as [|ch sch IH]; intros s Hs; simpl.
  - exact Hs.
  - apply IH, turn_disciplined, Hs.
Qed.

End Scheduler.

Section OneOnTheWire.

Context {A : Type}.

Lemma filter_none (f : Task A -> bool) (l : list (Task A)) :
  (forall i x, nth_error l i = Some x -> f x = false) -> filter f l = [].
Proof.
  induction l as [|y l IH]; intros H; simpl; [reflexivity|].
  rewrite (H O y eq_refl). apply IH. intros i x Hi. apply (H (S i) x Hi).
Qed.

Lemma filter_at_most_one (f : Task A -> bool) (l : list (Task A)) (h : nat) :
  (forall i x, nth_error l i = Some x -> f x = true -> i = h) ->
  (List.length (filter f l) <= 1)%nat.
Proof.
  revert h. induction l as [|y l IH]; intros h H; simpl; [lia|].
  destruct (f y) eqn:Hy.
  - rewrite filter_none; [simpl; lia|].
    intros i x Hi. destruct (f x) eqn:Hx; [|reflexivity].
    pose proof (H O y eq_refl Hy). pose proof (H (S i) x Hi Hx). lia.
  - destruct h as [|h].
    + rewrite filter_none; [simpl; lia|].
      intros i x Hi. destruct (f x) eqn:Hx; [|reflexivity].
      pose proof (H (S i) x Hi Hx). lia.
    + apply (IH h). intros i x Hi Hx.
      pose proof (H (S i) x Hi Hx). lia.
Qed.

Lemma on_wire_not_out (tk : Task A) : on_wire tk = true -> task_out tk -> False.
Proof. destruct tk as [ | [ | ] | | | | ]; simpl; auto; discriminate. Qed.

Lemma finished_not_in (tk : Task A) : finished tk = true -> task_in tk -> False.
Proof. destruct tk; simpl; auto; discriminate. Qed.

Lemma disciplined_one_on_the_wire (s : State A) :
  disciplined s ->
  (in_flight s <= 1)%nat /\
  (in_flight s = 1%nat -> lock s = true) /\
  (forallb finished (tasks s) = true -> lock s = false).
Proof.
  intros (holder & Htasks & Hlock). unfold in_flight.
  destruct holder as [h|].
  - destruct Hlock as [Hlock Hh]. split; [|split].
    + apply (filter_at_most_one on_wire (tasks s) h).
      intros i x Hi Hx. specialize (Htasks i x Hi).
      destruct (Nat.eqb h i) eqn:E; [apply Nat.eqb_eq in E; auto|].
      exfalso. exact (on_wire_not_out x Hx Htasks).
    + intros _. exact Hlock.
    + intros Hall. exfalso.
      destruct (nth_error (tasks s) h) as [tk|] eqn:Htk;
        [|apply nth_error_None in Htk; lia].
      pose proof (Htasks h tk Htk) as Hin. rewrite Nat.eqb_refl in Hin.
      rewrite forallb_forall in Hall.
      apply (finished_not_in tk); [|exact Hin].
      apply Hall. eapply nth_error_In; eauto.
  - split; [|split].
    + rewrite filter_none; [simpl; lia|].
      intros i x Hi. destruct (on_wire x) eqn:Hx; [|reflexivity].
      exfalso. exact (on_wire_not_out x Hx (Htasks i x Hi)).
    + rewrite filter_none; [simpl; discriminate|].
      intros i x Hi. destruct (on_wire x) eqn:Hx; [|reflexivity].
      exfalso. exact (on_wire_not_out x Hx (Htasks i x Hi)).
    + intros _. exact Hlock.
Qed.

End OneOnTheWire.

Lemma boot_disciplined (c : HTTPClient) (calls : list (nat * Route)) :
  disciplined (boot c calls).
Proof.
  exists None. simpl. split; [|reflexivity].
  intros i tk Hi. apply nth_error_In in Hi. apply in_map_iff in Hi.
  destruct Hi as ([fuel route] & <- & _). simpl. intros c'. apply outside_request.
Qed.

(** C6. However many [request()] calls are started on one client, however
    the loop interleaves them and whatever the servers answer, at most one
    data request is on the wire at any time, and only while the lock is
    taken; when every call has finished (returned or raised) the lock is
    free again; and a single call that found the lock free and returns or
    raises leaves it free. *)
Theorem one_request_on_the_wire
    (c : HTTPClient) (calls : list (nat * Route)) (sch : list Choice) :
  (in_flight (exec sch (boot c calls)) <= 1)%nat /\
  (in_flight (exec sch (boot c calls)) = 1%nat -> lock (exec sch (boot c calls)) = true) /\
  (forallb finished (tasks (exec sch (boot c calls))) = true ->
   lock (exec sch (boot c calls)) = false) /\
  (forall E fuel route w o,
     held w = false ->
     result (run E (request fuel route c) w) = Completed o ->
     held (world (run E (request fuel route c) w)) = false).
Proof.
  pose proof (disciplined_one_on_the_wire _
                (exec_disciplined sch _ (boot_disciplined c calls))) as (H1 & H2 & H3).
  repeat split; auto.
  intros E fuel route w o. apply request_releases.
Qed.

(** Two calls on one client: the first has its request on the wire, the
    second waits for the lock; once the first has its answer the second
    sends its own request. *)
Lemma one_request_on_the_wire_witness :
  let calls := [(2%nat, get_track); (2%nat, get_track)] in
  let next i := mkChoice i ok_track (fun _ => T0 + seconds 10) in
  let busy := exec [next 0%nat; next 1%nat] (boot client_T1 calls) in
  let done := exec [next 0%nat; next 1%nat; next 0%nat; next 1%nat; next 1%nat]
                   (boot client_T1 calls) in
  (in_flight busy = 1%nat /\ lock busy = true) /\
  (forallb finished (tasks done) = true /\ lock done = false).
Proof.
  intros calls next busy done.
  destruct (one_request_on_the_wire client_T1 calls [next 0%nat; next 1%nat])
    as (_ & Hbusy & _).
  destruct (one_request_on_the_wire client_T1 calls
              [next 0%nat; next 1%nat; next 0%nat; next 1%nat; next 1%nat])
    as (_ & _ & Hdone & _).
  split; split.
  - reflexivity.
  - apply Hbusy. reflexivity.
  - reflexivity.
  - apply Hdone. reflexivity.
Defined.

(** * Further properties of the code *)

(** ** errors.py: when an exception can be built, and what its text shows *)

(** X1.  With a non-null [error_description] in the body the text ends in
    [: True]: neither the description nor [error.message] is read. *)
Theorem http_error_description_ignored
    (d : list (string * Json)) (status_code : Z) (message : option string) (err : Json) :
  assoc "error" d = Some err ->
  dict_get d "error_description" <> JNull ->
  HTTPException_init (JDict d) status_code message =
  Returned (match message with
            | Some extra => (str_of_int status_code ++ " " ++ str err ++ ": True")
                            ++ " (" ++ extra ++ ")"
            | None => str_of_int status_code ++ " " ++ str err ++ ": True"
            end).
Proof.
  intros Herr Hdesc. unfold HTTPException_init, obind, getitem.
  rewrite Herr.
  destruct (dict_get d "error_description") eqn:Hd; try contradiction; simpl;
    destruct message; rewrite ?append_assoc; simpl; rewrite ?append_assoc; reflexivity.
Qed.

Lemma http_error_description_ignored_witness :
  HTTPException_init
    (JDict [("error", JStr "invalid_grant"); ("error_description", JStr "Bad code")])
    400 (Some "token") = Returned "400 invalid_grant: True (token)".
Proof.
  apply (http_error_description_ignored
           [("error", JStr "invalid_grant"); ("error_description", JStr "Bad code")]
           400 (Some "token") (JStr "invalid_grant") eq_refl).
  discriminate.
Defined.

(** X2.  [HTTPException(data, status)] can be built exactly from a dict with an
    [error] entry and either a non-null [error_description] or an [error]
    that is itself a dict with a [message]; otherwise building it raises
    [KeyError('error')], [KeyError('message')] or [TypeError]. *)
Theorem http_error_buildable (data : Json) (status_code : Z) (message : option string) :
  ((exists text, HTTPException_init data status_code message = Returned text) <->
   exists d err,
     data = JDict d /\ assoc "error" d = Some err /\
     (dict_get d "error_description" <> JNull \/
      exists m, getitem err "message" = Returned m)) /\
  (forall e, HTTPException_init data status_code message = Raised e ->
     e = KeyError "error" \/ e = KeyError "message" \/ e = TypeError).
Proof.
  split; [split|].
  - intros [text H]. unfold HTTPException_init, obind in H.
    destruct data as [ | | | | |d]; try discriminate H.
    simpl getitem in H. destruct (assoc "error" d) as [err|] eqn:Herr; [|discriminate H].
    exists d, err. split; [reflexivity|split; [exact Herr|]].
    destruct (dict_get d "error_description"); simpl in H;
      try (left; discriminate).
    right. destruct (getitem err "message") as [m|e]; [eauto|discriminate H].
  - intros (d & err & -> & Herr & Hcase).
    destruct (dict_get d "error_description") eqn:Hd.
    2-6: unfold HTTPException_init, obind, getitem; rewrite Herr, Hd; simpl;
      destruct message; eexists; reflexivity.
    destruct Hcase as [Hc|[m Hm]]; [contradiction|].
    unfold HTTPException_init, obind, getitem at 1. rewrite Herr, Hd. simpl is_not_None.
    cbv iota. rewrite Hm. destruct message; eexists; reflexivity.
  - intros e H. unfold HTTPException_init, obind in H.
    destruct data as [ | | | | |d]; simpl getitem in H; try (injection H as <-; auto).
    destruct (assoc "error" d) as [err|]; [|injection H as <-; auto].
    destruct (is_not_None (dict_get d "error_description")).
    + destruct message; discriminate H.
    + unfold getitem in H. destruct err as [ | | | | |e']; try (injection H as <-; auto).
      destruct (assoc "message" e'); [destruct message; discriminate H|].
      injection H as <-; auto.
Qed.

(** ** [authorize]: the remaining answers of the accounts service *)

Section AuthorizeMore.

Variable E : Env.

Lemma calls_app (l l' : list Event) : calls (l ++ l') = (calls l ++ calls l')%list.
Proof.
  induction l as [|[h r|n|] l IH]; simpl; auto. rewrite IH. reflexivity.
Qed.

(** X3.  Only a 200 answer touches the stored token: whatever else happens in
    [authorize()] (another status, a body that is not JSON, credentials that
    cannot be encoded, a closed session), [_access_token] and [_expires_at]
    are what they were. *)
Theorem authorize_non_200_keeps_token (c : HTTPClient) (w : World) :
  status (auth_server E (posts w)) <> 200 ->
  _access_token (client (run E (authorize c) w)) = _access_token c /\
  _expires_at (client (run E (authorize c) w)) = _expires_at c.
Proof.
  intros Hst. apply Z.eqb_neq in Hst.
  unfold_authorize. unfold mem_status, existsb.
  reduce. destruct (_session c); reduce; (repeat (first [rewrite Hst | break_match]; reduce));
    split; reflexivity.
Qed.

(** X4.  When the answer of the accounts service parses as JSON and the
    exception text can be built from it, a 403 raises the plain
    [HTTPException] and a 500, 502 or 503 raises [ServerError], with that
    text. *)
Theorem authorize_403_and_5xx (c : HTTPClient) (w : World) (data : Json) (text : string) :
  is_ascii (client_id c ++ ":" ++ client_secret c) = true ->
  (forall s, _session c = Some s -> closed s = false) ->
  json (auth_server E (posts w)) = Some data ->
  HTTPException_init data (status (auth_server E (posts w))) None = Returned text ->
  (status (auth_server E (posts w)) = 403 ->
   result (run E (authorize c) w) = Completed (Raised (HTTPError KHTTPException text))) /\
  (In (status (auth_server E (posts w))) [500; 502; 503] ->
   result (run E (authorize c) w) = Completed (Raised (HTTPError KServerError text))).
Proof.
  intros Hascii Hopen Hjson Htext.
  rewrite (run_authorize_response E c w Hascii Hopen), Hjson.
  unfold handle_token_response, raise_http. rewrite Htext.
  split.
  - intros ->. reduce. reflexivity.
  - intros Hin. simpl in Hin.
    repeat (destruct Hin as [<-|Hin]; [reduce; reflexivity|]). contradiction.
Qed.

(** X5.  An answer whose body parses as JSON and whose status the code does
    not name (not 200, 201, 202, 204, 304, 400, 401, 403, 404, 500, 502 or
    503) makes [authorize()] return normally: nothing is raised, nothing is
    logged, nothing is stored. *)
Theorem authorize_unlisted_status_is_silent (c : HTTPClient) (w : World) (data : Json) :
  is_ascii (client_id c ++ ":" ++ client_secret c) = true ->
  (forall s, _session c = Some s -> closed s = false) ->
  json (auth_server E (posts w)) = Some data ->
  ~ In (status (auth_server E (posts w)))
       [200; 201; 202; 204; 304; 400; 401; 403; 404; 500; 502; 503] ->
  run E (authorize c) w = (Completed (Returned tt), with_session c, token_sent E c w).
Proof.
  intros Hascii Hopen Hjson Hst.
  rewrite (run_authorize_response E c w Hascii Hopen), Hjson.
  unfold handle_token_response, mem_status, existsb.
  simpl In in Hst.
  repeat match goal with
  | |- context [Z.eqb ?a ?b] =>
      let H := fresh in
      destruct (Z.eqb a b) eqn:H; [apply Z.eqb_eq in H; exfalso; apply Hst; rewrite H; tauto|]
  end.
  reflexivity.
Qed.

(** X6.  Credentials that are not ASCII make [authorize()] raise
    [UnicodeEncodeError] before anything is sent; the session has been
    created all the same. *)
Theorem authorize_non_ascii_credentials (c : HTTPClient) (w : World) :
  is_ascii (client_id c ++ ":" ++ client_secret c) = false ->
  result (run E (authorize c) w) = Completed (Raised UnicodeEncodeError) /\
  client (run E (authorize c) w) = with_session c /\
  calls (trace (world (run E (authorize c) w))) = calls (trace w) /\
  posts (world (run E (authorize c) w)) = posts w.
Proof.
  intros Hascii. unfold authorize, encode_ascii, with_session.
  reduce. destruct (_session c); reduce; rewrite Hascii; reduce.
  - repeat split.
  - rewrite calls_app. simpl. rewrite app_nil_r. repeat split.
Qed.

(** X7.  A 200 answer is stored piecewise.  Without an [access_token] in the
    body nothing is stored; with an [access_token] but an [expires_in] that
    is missing or not a number (or out of range), the new token is already
    stored when the exception escapes and the old expiry stays. *)
Theorem authorize_200_stores_piecewise
    (c : HTTPClient) (w : World) (data : Json) (e : Exn) :
  is_ascii (client_id c ++ ":" ++ client_secret c) = true ->
  (forall s, _session c = Some s -> closed s = false) ->
  json (auth_server E (posts w)) = Some data ->
  status (auth_server E (posts w)) = 200 ->
  (getitem data "access_token" = Raised e ->
   result (run E (authorize c) w) = Completed (Raised e) /\
   _access_token (client (run E (authorize c) w)) = _access_token c /\
   _expires_at (client (run E (authorize c) w)) = _expires_at c) /\
  (forall token,
     getitem data "access_token" = Returned token ->
     obind (getitem data "expires_in") timedelta_of_seconds = Raised e ->
     result (run E (authorize c) w) = Completed (Raised e) /\
     _access_token (client (run E (authorize c) w)) = Some token /\
     _expires_at (client (run E (authorize c) w)) = _expires_at c).
Proof.
  intros Hascii Hopen Hjson Hst.
  rewrite (run_authorize_response E c w Hascii Hopen), Hjson.
  unfold handle_token_response, with_session. rewrite Hst. split.
  - intros Htok. reduce. rewrite Htok. destruct (_session c); repeat split.
  - intros token Htok Hexp. reduce. rewrite Htok. reduce.
    unfold obind in Hexp.
    destruct (getitem data "expires_in") as [secs|e'] eqn:Hsecs; reduce.
    + rewrite Hexp. reduce. destruct (_session c); repeat split.
    + injection Hexp as ->. destruct (_session c); repeat split.
Qed.

(** X8.  One [authorize()] makes at most one network call, the token request
    with the Basic credentials, and never a data request. *)
Theorem authorize_sends_one_token_request (c : HTTPClient) (w : World) :
  (calls (trace (world (run E (authorize c) w))) = calls (trace w) \/
   calls (trace (world (run E (authorize c) w))) = (calls (trace w) ++ [token_call c])%list) /\
  requests (world (run E (authorize c) w)) = requests w.
Proof.
  unfold_authorize. unfold token_call.
  crunch; split; try reflexivity;
    repeat rewrite calls_app; simpl; rewrite ?app_nil_r; auto.
Qed.

End AuthorizeMore.

(** ** [request]: what it sends, what it keeps *)

Section RequestMore.

Variable E : Env.

Ltac advance := reduce; repeat (push_run; reduce).

(** The run of a call that finds the token fresh and gets a 2xx answer. *)
Lemma run_request_2xx
    (fuel : nat) (route : Route) (c : HTTPClient) (w : World)
    (s : ClientSession) (expires_at : Z) (token data : Json) :
  _session c = Some s -> closed s = false ->
  _expires_at c = Some expires_at ->
  _access_token c = Some token ->
  held w = false ->
  refresh_due (clock E (ticks w)) expires_at = false ->
  json (api_server E (requests w)) = Some data ->
  200 <= status (api_server E (requests w)) < 300 ->
  result (run E (request (S fuel) route c) w) = Completed (Returned data) /\
  client (run E (request (S fuel) route c) w) = c /\
  calls (trace (world (run E (request (S fuel) route c) w))) =
    (calls (trace w) ++ [data_call route token])%list /\
  held (world (run E (request (S fuel) route c) w)) = false /\
  posts (world (run E (request (S fuel) route c) w)) = posts w.
Proof.
  intros Hs Hopen Hexp Htok Hfree Hdue Hjson Hst.
  assert (H2xx : (200 <=? status (api_server E (requests w))) &&
                 (status (api_server E (requests w)) <? 300) = true)
    by (apply andb_true_intro; split; [apply Z.leb_le|apply Z.ltb_lt]; lia).
  simpl request. unfold_request. unfold interpret, data_call.
  advance. rewrite Hs. advance. rewrite Hexp. advance. rewrite Hdue. advance.
  rewrite Htok. advance. rewrite Hfree. advance. rewrite Hs. advance.
  rewrite Hopen. advance. rewrite Hjson. advance. rewrite H2xx. advance.
  repeat rewrite calls_app. simpl. rewrite ?app_nil_r. repeat split.
Qed.


(** The exact state an accepted authorization leaves. *)
Lemma run_authorize_200 (c : HTTPClient) (w : World) (data token : Json) (n : Z) :
  is_ascii (client_id c ++ ":" ++ client_secret c) = true ->
  (forall s, _session c = Some s -> closed s = false) ->
  json (auth_server E (posts w)) = Some data ->
  status (auth_server E (posts w)) = 200 ->
  getitem data "access_token" = Returned token ->
  getitem data "expires_in" = Returned (JInt n) ->
  - TIMEDELTA_MAX_DAYS <= n / DAY <= TIMEDELTA_MAX_DAYS ->
  0 <= clock E (ticks w) + n * MICRO < DATETIME_END ->
  run E (authorize c) w =
  (Completed (Returned tt),
   set_expires_at (clock E (ticks w) + n * MICRO) (set_access_token token (with_session c)),
   tick (token_sent E c w)).
Proof.
  intros Hascii Hopen Hjson Hst Htoken Hsecs Htd Hdt.
  rewrite (run_authorize_response E c w Hascii Hopen), Hjson.
  unfold with_session, token_sent, handle_token_response, timedelta_of_seconds, datetime_add.
  rewrite Hst.
  assert (Hin : (- TIMEDELTA_MAX_DAYS <=? n / DAY) && (n / DAY <=? TIMEDELTA_MAX_DAYS) = true)
    by (apply andb_true_intro; split; apply Z.leb_le; lia).
  assert (Hsum : (0 <=? clock E (ticks w) + n * MICRO) &&
                 (clock E (ticks w) + n * MICRO <? DATETIME_END) = true)
    by (apply andb_true_intro; split; [apply Z.leb_le|apply Z.ltb_lt]; lia).
  destruct (_session c); reduce; rewrite Htoken; reduce; rewrite Hsecs; reduce;
    rewrite Hin; reduce; rewrite Hsum; reduce; reflexivity.
Qed.

(** X11.  The token of a 200 answer is the token of the next data request:
    after [authorize()] stored it (the answer has [access_token] and an
    integer [expires_in] in range), a [request()] that starts with the lock
    free, whose freshness test asks for no refresh and which gets a 2xx
    answer with a JSON body sends [Bearer <access_token>] and returns that
    body, and these two calls are all that went over the network. *)
Theorem token_round_trip
    (fuel : nat) (route : Route) (c : HTTPClient) (w : World)
    (body token data : Json) (n : Z) :
  is_ascii (client_id c ++ ":" ++ client_secret c) = true ->
  (forall s, _session c = Some s -> closed s = false) ->
  held w = false ->
  json (auth_server E (posts w)) = Some body ->
  status (auth_server E (posts w)) = 200 ->
  getitem body "access_token" = Returned token ->
  getitem body "expires_in" = Returned (JInt n) ->
  - TIMEDELTA_MAX_DAYS <= n / DAY <= TIMEDELTA_MAX_DAYS ->
  0 <= clock E (ticks w) + n * MICRO < DATETIME_END ->
  refresh_due (clock E (S (ticks w))) (clock E (ticks w) + n * MICRO) = false ->
  json (api_server E (requests w)) = Some data ->
  200 <= status (api_server E (requests w)) < 300 ->
  let authorized := run E (authorize c) w in
  let answered := run E (request (S fuel) route (client authorized)) (world authorized) in
  result answered = Completed (Returned data) /\
  calls (trace (world answered)) =
    (calls (trace w) ++ [token_call c; data_call route token])%list.
Proof.
  intros Hascii Hopen Hfree Hbody Hst Htoken Hsecs Htd Hdt Hdue Hjson H2xx authorized answered.
  unfold answered, authorized.
  rewrite (run_authorize_200 c w body token n Hascii Hopen Hbody Hst Htoken Hsecs Htd Hdt).
  change (client (Completed (Returned tt),
                  set_expires_at (clock E (ticks w) + n * MICRO)
                    (set_access_token token (with_session c)),
                  tick (token_sent E c w)))
    with (set_expires_at (clock E (ticks w) + n * MICRO)
            (set_access_token token (with_session c))).
  change (world (Completed (Returned tt),
                 set_expires_at (clock E (ticks w) + n * MICRO)
                   (set_access_token token (with_session c)),
                 tick (token_sent E c w)))
    with (tick (token_sent E c w)).
  assert (Hs : exists s, _session (set_expires_at (clock E (ticks w) + n * MICRO)
                             (set_access_token token (with_session c))) = Some s /\
                         closed s = false).
  { unfold with_session. destruct (_session c) as [s|] eqn:Hc; simpl.
    - exists s. rewrite Hc. auto.
    - eexists. split; reflexivity. }
  destruct Hs as (s & Hs & Hclosed).
  assert (Hw : requests (tick (token_sent E c w)) = requests w /\
               held (tick (token_sent E c w)) = false /\
               ticks (tick (token_sent E c w)) = S (ticks w) /\
               calls (trace (tick (token_sent E c w))) = (calls (trace w) ++ [token_call c])%list).
  { unfold token_sent, token_call. destruct (_session c); simpl;
      repeat rewrite calls_app; simpl; rewrite ?app_nil_r; auto. }
  destruct Hw as (Hreq & Hheld & Hticks & Hcalls).
  destruct (run_request_2xx fuel route _ (tick (token_sent E c w)) s
              (clock E (ticks w) + n * MICRO) token data Hs Hclosed eq_refl eq_refl Hheld)
    as (Hres & _ & Htrace & _).
  - rewrite Hticks. exact Hdue.
  - rewrite Hreq. exact Hjson.
  - rewrite Hreq. exact H2xx.
  - split; [exact Hres|]. rewrite Htrace, Hcalls, <- app_assoc. reflexivity.
Qed.

(** X12.  On a closed session nothing is sent any more: with ASCII
    credentials [authorize()] raises [RuntimeError] at once, and so does a
    [request()] on a client with a stored token and expiry that starts with
    the lock free and whose freshness test asks for no refresh, giving the
    lock back. *)
Theorem closed_session_refuses
    (fuel : nat) (route : Route) (c : HTTPClient) (w : World) (s : ClientSession) :
  _session c = Some s -> closed s = true ->
  (is_ascii (client_id c ++ ":" ++ client_secret c) = true ->
   run E (authorize c) w = (Completed (Raised (RuntimeError "Session is closed")), c, w)) /\
  (forall expires_at token,
     _expires_at c = Some expires_at -> _access_token c = Some token ->
     refresh_due (clock E (ticks w)) expires_at = false -> held w = false ->
     result (run E (request (S fuel) route c) w) =
       Completed (Raised (RuntimeError "Session is closed")) /\
     client (run E (request (S fuel) route c) w) = c /\
     calls (trace (world (run E (request (S fuel) route c) w))) = calls (trace w) /\
     held (world (run E (request (S fuel) route c) w)) = false).
Proof.
  intros Hs Hclosed. split.
  - intros Hascii. unfold authorize, encode_ascii, session_send, get_session.
    reduce. rewrite Hs. reduce. rewrite Hascii. reduce. rewrite Hs. reduce.
    rewrite Hclosed. reflexivity.
  - intros expires_at token Hexp Htok Hdue Hfree.
    simpl request. unfold_request.
    advance. rewrite Hs. advance. rewrite Hexp. advance. rewrite Hdue. advance.
    rewrite Htok. advance. rewrite Hfree. advance. rewrite Hs. advance.
    rewrite Hclosed. advance.
    repeat rewrite calls_app. simpl. rewrite ?app_nil_r. repeat split.
Qed.

(** X13.  On an authorized client with an open session and a free lock,
    whose freshness test asks for no refresh, a data response whose body is
    not JSON makes [request()] raise once its request has been sent; no
    token request is made, the lock is given back and the client is
    unchanged. *)
Theorem request_body_not_json
    (fuel : nat) (route : Route) (c : HTTPClient) (w : World)
    (s : ClientSession) (expires_at : Z) (token : Json) :
  _session c = Some s -> closed s = false ->
  _expires_at c = Some expires_at ->
  _access_token c = Some token ->
  held w = false ->
  refresh_due (clock E (ticks w)) expires_at = false ->
  json (api_server E (requests w)) = None ->
  result (run E (request (S fuel) route c) w) = Completed (Raised JSONError) /\
  client (run E (request (S fuel) route c) w) = c /\
  calls (trace (world (run E (request (S fuel) route c) w))) =
    (calls (trace w) ++ [data_call route token])%list /\
  held (world (run E (request (S fuel) route c) w)) = false.
Proof.
  intros Hs Hopen Hexp Htok Hfree Hdue Hjson.
  simpl request. unfold_request. unfold data_call.
  advance. rewrite Hs. advance. rewrite Hexp. advance. rewrite Hdue. advance.
  rewrite Htok. advance. rewrite Hfree. advance. rewrite Hs. advance.
  rewrite Hopen. advance. rewrite Hjson. advance.
  repeat rewrite calls_app. simpl. rewrite ?app_nil_r. repeat split.
Qed.

End RequestMore.

(** ** What no call changes *)

Section Untouched.

Variable E : Env.

Lemma authorize_untouched (c : HTTPClient) (w : World) :
  client_id (client (run E (authorize c) w)) = client_id c /\
  client_secret (client (run E (authorize c) w)) = client_secret c /\
  (posts w <= posts (world (run E (authorize c) w)))%nat /\
  (_session c <> None ->
   posts (world (run E (authorize c) w)) = posts w ->
   client (run E (authorize c) w) = c).
Proof.
  unfold_authorize.
  crunch; repeat split; simpl; try lia; try congruence; intros; exfalso; lia.
Qed.

Ltac run_authorize :=
  match goal with
  | |- context [run E (authorize ?c) ?w] =>
    let ra := fresh "ra" in let ca := fresh "ca" in let wa := fresh "wa" in
    let Ha := fresh "Ha" in let Hb := fresh "Hb" in
    pose proof (authorize_frame E c w) as Ha;
    pose proof (authorize_untouched c w) as Hb;
    destruct (run E (authorize c) w) as [[ra ca] wa];
    unfold result, client, world in Ha, Hb; simpl in Ha, Hb;
    let o := fresh "o" in
    let Hheld := fresh "Hheld" in let Hreq := fresh "Hreq" in
    let Hses := fresh "Hses" in
    let Hid := fresh "Hid" in let Hsec := fresh "Hsec" in
    let Hpost := fresh "Hpost" in let Hsame := fresh "Hsame" in
    destruct Ha as (Hheld & Hreq & [o ->] & _ & Hses & _);
    destruct Hb as (Hid & Hsec & Hpost & Hsame);
    destruct o
  end.

Ltac advance :=
  reduce; repeat (first [push_run | rewrite run_interpret]; reduce).

Ltac explore := repeat (advance; try first [run_authorize | use_hyp | break_match]).

Lemma untouched_released {A} c w (x : Result A * HTTPClient * World) :
  untouched c w x -> untouched c w (released x).
Proof.
  unfold untouched. rewrite client_released, posts_released. auto.
Qed.

Lemma untouched_trans {A} c w c' w' (x : Result A * HTTPClient * World) :
  client_id c' = client_id c -> client_secret c' = client_secret c ->
  (posts w <= posts w')%nat ->
  (posts w' = posts w -> c' = c) ->
  untouched c' w' x -> untouched c w x.
Proof.
  unfold untouched. intros Hid Hsec Hle Heq (H1 & H2 & H3 & H4).
  repeat split; try congruence; try lia.
  intros H. assert (posts w' = posts w) by lia. rewrite H4 by lia. auto.
Qed.

Ltac use_same :=
  repeat match goal with
  | H : _session ?c <> None -> posts ?w1 = posts ?w0 -> ?c1 = ?c |- _ =>
      let H' := fresh in
      assert (H' : c1 = c) by (apply H; [congruence | lia]); clear H
  end.

Ltac close_untouched :=
  unfold untouched, client, world; simpl; repeat split;
  try lia; try congruence;
  intros Hp; first [exfalso; lia | use_same; congruence].

Lemma request_body_untouched again r c w :
  (forall c' w', untouched c' w' (run E (again r c') w')) ->
  untouched c w (run E (request_body again r c) w).
Proof.
  intros Hag. unfold_request.
  explore.
  all: try (close_untouched; fail).
  all: apply untouched_released.
  all: eapply untouched_trans; [| | | |apply Hag]; simpl; try congruence; try lia.
  all: intros Hp; use_same; congruence.
Qed.

Lemma request_untouched fuel r c w : untouched c w (run E (request fuel r c) w).
Proof.
  revert c w. induction fuel as [|fuel IH]; intros c w.
  - simpl. unfold untouched, client, world. simpl. auto.
  - apply request_body_untouched. exact IH.
Qed.

(** X15.  The credentials given at construction are never changed: not by
    [authorize()], not by [request()], not by [destroy()]. *)
Theorem credentials_never_change (fuel : nat) (route : Route) (c : HTTPClient) (w : World) :
  (client_id (client (run E (authorize c) w)) = client_id c /\
   client_secret (client (run E (authorize c) w)) = client_secret c) /\
  (client_id (client (run E (request fuel route c) w)) = client_id c /\
   client_secret (client (run E (request fuel route c) w)) = client_secret c) /\
  (client_id (client (run E (destroy c) w)) = client_id c /\
   client_secret (client (run E (destroy c) w)) = client_secret c).
Proof.
  split; [|split].
  - destruct (authorize_untouched c w) as (H1 & H2 & _). auto.
  - destruct (request_untouched fuel route c w) as (H1 & H2 & _). auto.
  - unfold destroy, get_session, session_close, close_session.
    reduce. destruct (_session c) as [[[|]]|] eqn:Hs; reduce; try rewrite Hs; auto.
Qed.

(** X16.  [request()] changes the client only by re-authorizing: a call during
    which no token request went out leaves every attribute as it was,
    however the call ends. *)
Theorem request_changes_state_only_by_authorizing
    (fuel : nat) (route : Route) (c : HTTPClient) (w : World) :
  posts (world (run E (request fuel route c) w)) = posts w ->
  client (run E (request fuel route c) w) = c.
Proof. apply (request_untouched fuel route c w). Qed.

(** ** The lock after a 401 *)

Lemma released_blocked {A} (x : Result A * HTTPClient * World) :
  result (released x) = Blocked -> released x = x.
Proof. destruct x as [[[o| |] c] w]; simpl; intros H; [discriminate|reflexivity..]. Qed.

(** A call stops nowhere but at the lock: a blocked call leaves it taken. *)
Lemma request_body_blocked again r c w :
  (forall c' w', held w' = true ->
     result (run E (again r c') w') = Blocked ->
     held (world (run E (again r c') w')) = true) ->
  result (run E (request_body again r c) w) = Blocked ->
  held (world (run E (request_body again r c) w)) = true.
Proof.
  intros Hag. unfold_request.
  explore; intros Hres; try discriminate; try congruence.
  all: rewrite (released_blocked _ Hres); rewrite result_released in Hres.
  all: apply Hag; [simpl; congruence|exact Hres].
Qed.

Lemma request_blocked fuel r c w :
  result (run E (request fuel r c) w) = Blocked ->
  held (world (run E (request fuel r c) w)) = true.
Proof.
  revert c w. induction fuel as [|fuel IH]; intros c w.
  - discriminate.
  - apply request_body_blocked. intros c' w' _. apply IH.
Qed.

(** X14.  A 401 from the data endpoint never yields data.  The call either
    raises, with the lock free again, or it stops for ever at the lock it
    holds itself; from then on every call on this client, in whatever state
    the client is, sends no data request and returns no value, and the lock
    stays taken. *)
Theorem lock_lost_after_401
    (fuel : nat) (route : Route) (c : HTTPClient) (w : World)
    (s : ClientSession) (expires_at : Z) (token data : Json) :
  _session c = Some s -> closed s = false ->
  _expires_at c = Some expires_at ->
  _access_token c = Some token ->
  held w = false ->
  (refresh_due (clock E (ticks w)) expires_at = true ->
   result (run E (authorize c) (tick w)) = Completed (Returned tt)) ->
  json (api_server E (requests w)) = Some data ->
  status (api_server E (requests w)) = 401 ->
  let x := run E (request (S (S fuel)) route c) w in
  requests (world x) = S (requests w) /\
  ((exists e, result x = Completed (Raised e) /\ held (world x) = false) \/
   (result x = Blocked /\ held (world x) = true /\
    forall fuel' route' c',
      let y := run E (request (S fuel') route' c') (world x) in
      (forall d, result y <> Completed (Returned d)) /\
      requests (world y) = requests (world x) /\
      held (world y) = true)).
Proof.
  intros Hs Hopen Hexp Htok Hfree Hpre Hjson Hst x.
  destruct (request_401_not_retried E fuel route c w s expires_at token data
              Hs Hopen Hexp Htok Hfree Hpre Hjson Hst) as [Hreq Hno].
  fold x in Hreq, Hno. split; [exact Hreq|].
  pose proof (request_fuel_enough E fuel route c w) as [Hsame Hfuel].
  pose proof (request_releases E (S (S fuel)) route c w) as Hrel.
  pose proof (request_blocked (S (S fuel)) route c w) as Hblk.
  fold x in Hrel, Hblk. rewrite <- Hsame in Hfuel. fold x in Hfuel.
  destruct (result x) as [[d|e]| |] eqn:Hres.
  - exfalso. apply (Hno d). reflexivity.
  - left. exists e. split; [reflexivity|]. apply (Hrel (Raised e) Hfree). reflexivity.
  - right. split; [reflexivity|]. split; [apply Hblk; reflexivity|].
    intros fuel' route' c' y. unfold y.
    change (request (S fuel') route' c') with (request_body (request fuel') route' c').
    destruct (request_body_held E (request fuel') route' c' (world x) (Hblk eq_refl))
      as (_ & _ & Hno' & Hsame' & Hheld').
    auto.
  - exfalso. apply Hfuel. reflexivity.
Qed.

End Untouched.

(** ** client.py: closing the client *)

Section Lifecycle.

Variable E : Env.

Lemma result_of {A} (r : Result A) (c : HTTPClient) (w : World) : result (r, c, w) = r.
Proof. reflexivity. Qed.

Lemma client_of {A} (r : Result A) (c : HTTPClient) (w : World) : client (r, c, w) = c.
Proof. reflexivity. Qed.

Lemma world_of {A} (r : Result A) (c : HTTPClient) (w : World) : world (r, c, w) = w.
Proof. reflexivity. Qed.

Lemma run_authorize_closed (c : HTTPClient) (w : World) (s : ClientSession) :
  _session c = Some s -> closed s = true ->
  is_ascii (client_id c ++ ":" ++ client_secret c) = true ->
  run E (authorize c) w = (Completed (Raised (RuntimeError "Session is closed")), c, w).
Proof.
  intros Hs Hclosed Hascii. unfold authorize, encode_ascii, session_send, get_session.
  reduce. rewrite Hs. reduce. rewrite Hascii. reduce. rewrite Hs. reduce.
  rewrite Hclosed. reflexivity.
Qed.

Lemma run_destroy (c : HTTPClient) (w : World) (s : ClientSession) :
  _session c = Some s ->
  run E (destroy c) w =
  if closed s then (Completed (Returned tt), c, w)
  else (Completed (Returned tt), set_session {| closed := true |} c,
        observe (Noted (Log DEBUG "Closed aiohttp session" [])) (observe SessionClosed w)).
Proof.
  intros Hs. unfold destroy, get_session, session_close, close_session.
  reduce. rewrite Hs. reduce. destruct (closed s); reduce; [|rewrite Hs]; reflexivity.
Qed.

(** X17.  [close()] on a client that has a session returns normally, leaves the
    session closed and the token as it was, and sends nothing; a second
    [close()] does nothing at all. *)
Theorem close_is_idempotent (c : HTTPClient) (w : World) (s : ClientSession) :
  _session c = Some s ->
  let once := run E (SpotifyClient_close c) w in
  result once = Completed (Returned tt) /\
  _session (client once) = Some {| closed := true |} /\
  _access_token (client once) = _access_token c /\
  _expires_at (client once) = _expires_at c /\
  calls (trace (world once)) = calls (trace w) /\
  run E (SpotifyClient_close (client once)) (world once) =
    (Completed (Returned tt), client once, world once).
Proof.
  intros Hs once. unfold once, SpotifyClient_close.
  rewrite (run_destroy c w s Hs).
  destruct s as [[|]]; simpl closed; cbv iota;
    rewrite ?result_of, ?client_of, ?world_of.
  - rewrite (run_destroy c w _ Hs). repeat split; auto.
  - rewrite (run_destroy (set_session {| closed := true |} c) _ {| closed := true |} eq_refl).
    simpl. repeat rewrite calls_app. simpl. rewrite ?app_nil_r. repeat split.
Qed.

(** X18.  A client with ASCII credentials cannot be used again after
    [close()]: from construction, [authorize()] (whatever the accounts
    service answers), then [close()], then [authorize()] again raises
    [RuntimeError], because the closed session is kept and no new one is
    made. *)
Theorem client_cannot_be_reopened (id secret : string) (w : World) :
  is_ascii (id ++ ":" ++ secret) = true ->
  let started := run E (SpotifyClient_authorize (http (SpotifyClient_init id secret))) w in
  let stopped := run E (SpotifyClient_close (client started)) (world started) in
  result stopped = Completed (Returned tt) /\
  run E (SpotifyClient_authorize (client stopped)) (world stopped) =
    (Completed (Raised (RuntimeError "Session is closed")), client stopped, world stopped).
Proof.
  intros Hascii started stopped.
  unfold SpotifyClient_authorize, SpotifyClient_close, SpotifyClient_init, http in *.
  destruct (authorize_frame E (HTTPClient_init id secret) w) as (_ & _ & _ & _ & Hs & Hid & Hsec).
  fold started in Hs, Hid, Hsec. simpl in Hs, Hid, Hsec.
  unfold stopped. rewrite (run_destroy _ _ _ Hs). simpl closed. cbv iota.
  rewrite ?result_of, ?client_of, ?world_of.
  split; [reflexivity|].
  apply (run_authorize_closed _ _ {| closed := true |}); [reflexivity|reflexivity|].
  simpl. rewrite Hid, Hsec. exact Hascii.
Qed.

End Lifecycle.

(** ** The endpoint methods *)

Section EndpointRoutes.

Lemma keys_setitem_in (key : string) (value : Json) (d : PARAMS) :
  In key (keys d) -> keys (setitem key value d) = keys d.
Proof.
  induction d as [|[k v] d IH]; simpl; intros H; [contradiction|].
  destruct (String.eqb key k) eqn:Hk; simpl; [reflexivity|].
  f_equal. apply IH. destruct H as [->|H]; [|exact H].
  rewrite String.eqb_refl in Hk. discriminate.
Qed.

Lemma setitem_new (key : string) (value : Json) (d : PARAMS) :
  ~ In key (keys d) -> setitem key value d = (d ++ [(key, value)])%list.
Proof.
  induction d as [|[k v] d IH]; simpl; intros H; [reflexivity|].
  destruct (String.eqb key k) eqn:Hk.
  - apply String.eqb_eq in Hk. exfalso. apply H. left. congruence.
  - f_equal. apply IH. intros Hin. apply H. right. exact Hin.
Qed.

Lemma NoDup_setitem (key : string) (value : Json) (d : PARAMS) :
  NoDup (keys d) -> NoDup (keys (setitem key value d)).
Proof.
  intros Hd. destruct (in_dec string_dec key (keys d)) as [Hin|Hout].
  - rewrite keys_setitem_in; assumption.
  - rewrite setitem_new by assumption. unfold keys. rewrite map_app. simpl.
    apply NoDup_app; auto.
    + constructor; [intros []|constructor].
    + intros x Hx [<-|[]]. contradiction.
Qed.

Lemma NoDup_set_if_str key arg d : NoDup (keys d) -> NoDup (keys (set_if_str key arg d)).
Proof. destruct arg as [[|c s]|]; simpl; auto using NoDup_setitem. Qed.

Lemma NoDup_set_if_list key arg d : NoDup (keys d) -> NoDup (keys (set_if_list key arg d)).
Proof. destruct arg as [[|x l]|]; simpl; auto using NoDup_setitem. Qed.

Lemma params_Route_init (m path : string) (d p : PARAMS) :
  params (Route_init m path (Some d)) = Some p -> p = d /\ d <> [].
Proof.
  destruct d as [|x d']; simpl; intros H; [discriminate|].
  injection H as H. subst p. split; [reflexivity|discriminate].
Qed.

(** Storing the keyword arguments one by one gives the dict of all of
    them, in the order of the keys. *)
Lemma fold_setitem (f : string -> Json) (l : list string) (acc : PARAMS) :
  NoDup l -> (forall k, In k l -> ~ In k (keys acc)) ->
  fold_left (fun d key => setitem key (f key) d) l acc =
  (acc ++ map (fun k => (k, f k)) l)%list.
Proof.
  revert acc. induction l as [|k l IH]; intros acc Hl Hacc; simpl.
  - rewrite app_nil_r. reflexivity.
  - inversion Hl as [|? ? Hk Hl']; subst.
    rewrite setitem_new by (apply Hacc; left; reflexivity).
    rewrite IH; auto.
    + rewrite <- app_assoc. reflexivity.
    + intros k' Hk' Hin. unfold keys in Hin. rewrite map_app in Hin.
      apply in_app_or in Hin. destruct Hin as [Hin|[<-|[]]].
      * apply (Hacc k'); [right; exact Hk'|exact Hin].
      * contradiction.
Qed.

Lemma distinct_NoDup (l : list string) : distinct l = true -> NoDup l.
Proof.
  induction l as [|x l IH]; simpl; intros H; [constructor|].
  apply andb_prop in H. destruct H as [Hx Hl]. constructor; auto.
  intros Hin. apply negb_true_iff in Hx.
  assert (existsb (String.eqb x) l = true)
    by (apply existsb_exists; exists x; split; [exact Hin|apply String.eqb_refl]).
  congruence.
Qed.

Lemma NoDup_RECOMMENDATION_KEYS : NoDup RECOMMENDATION_KEYS.
Proof. apply distinct_NoDup. vm_compute. reflexivity. Qed.

(** The loop of http.py 513-515 on a dict [d]: it either finds no [None]
    and leaves [d] alone, or raises. *)
Lemma pop_Nones_spec (d items : PARAMS) :
  pop_Nones d items false =
  if forallb (fun kv => is_not_None (snd kv)) items then Returned d
  else Raised (RuntimeError "dictionary changed size during iteration").
Proof.
  induction items as [|[k v] items IH]; simpl; [reflexivity|].
  destruct (is_not_None v); simpl; [exact IH|].
  destruct items as [|[k' v'] items']; reflexivity.
Qed.

End EndpointRoutes.

Section EndpointClaims.

Variable E : Env.

Lemma forallb_ext_in {T} (f g : T -> bool) (l : list T) :
  (forall x, In x l -> f x = g x) -> forallb f l = forallb g l.
Proof.
  induction l as [|x l IH]; simpl; intros H; [reflexivity|].
  rewrite (H x) by (left; reflexivity). rewrite IH; auto.
Qed.

Lemma keys_stored (f : string -> Json) (l : list string) :
  keys (map (fun key => (key, f key)) l) = l.
Proof.
  unfold keys. rewrite map_map. simpl. apply map_id.
Qed.

Lemma store_then_pop (f : string -> Json) (l : list string) (path : string) :
  NoDup l ->
  obind (pop_Nones (fold_left (fun d key => setitem key (f key) d) l [])
                   (fold_left (fun d key => setitem key (f key) d) l []) false)
        (fun params => GET path (Some params)) =
  if forallb (fun key => is_not_None (f key)) l
  then Returned (Route_init "GET" path (Some (map (fun key => (key, f key)) l)))
  else Raised (RuntimeError "dictionary changed size during iteration").
Proof.
  intros Hl. rewrite fold_setitem; [|exact Hl|intros k _ []].
  rewrite app_nil_l, pop_Nones_spec.
  replace (forallb (fun kv : string * Json => is_not_None (snd kv))
             (map (fun k => (k, f k)) l))
    with (forallb (fun key => is_not_None (f key)) l).
  - destruct (forallb _ l); reflexivity.
  - clear Hl. induction l as [|k l IH]; simpl; [reflexivity|].
    rewrite IH. reflexivity.
Qed.

Lemma route_get_recommendations (kwargs : string -> Json) :
  route (get_recommendations kwargs) =
  if forallb (fun key => is_not_None (kwargs key)) RECOMMENDATION_KEYS
  then Returned (Route_init "GET" "recommendations"
                   (Some (map (fun key => (key, kwargs key)) RECOMMENDATION_KEYS)))
  else Raised (RuntimeError "dictionary changed size during iteration").
Proof.
  apply (store_then_pop kwargs RECOMMENDATION_KEYS "recommendations").
  apply NoDup_RECOMMENDATION_KEYS.
Qed.

(** [Route] keeps a non-empty parameter dict whole, turns an empty or
    missing one into [None], and its URL is the API root followed by the
    path. *)
Theorem Route_keeps_params (m path : string) (given : option PARAMS) :
  method (Route_init m path given) = m /\
  url (Route_init m path given) = BASE ++ path /\
  (forall d, given = Some d -> d <> [] -> params (Route_init m path given) = Some d) /\
  (given = None \/ given = Some [] -> params (Route_init m path given) = None).
Proof.
  repeat split.
  - intros d -> Hd. destruct d; [contradiction|reflexivity].
  - intros [->| ->]; reflexivity.
Qed.

(** X19.  Every endpoint method that gets as far as [request] asks for a GET on
    a URL under the API root, never with an empty parameter dict, and no
    parameter name occurs twice. *)
Theorem endpoints_are_GETs (e : Endpoint) (r : Route) :
  route e = Returned r ->
  method r = "GET" /\
  url r = BASE ++ path r /\
  params r <> Some [] /\
  (forall p, params r = Some p -> NoDup (keys p)).
Proof.
  intros H.
  assert (Hshape : exists path given, r = Route_init "GET" path given /\
                     forall d, given = Some d -> NoDup (keys d)).
  { destruct e;
      lazymatch type of H with
      | route (get_recommendations _) = _ =>
          rewrite route_get_recommendations in H;
          destruct (forallb _ _); [|discriminate H];
          exists "recommendations",
            (Some (map (fun key => (key, kwargs key)) RECOMMENDATION_KEYS));
          split; [congruence|]; intros d Hd;
          replace d with (map (fun key => (key, kwargs key)) RECOMMENDATION_KEYS)
            by congruence;
          rewrite keys_stored; apply NoDup_RECOMMENDATION_KEYS
      | _ =>
          simpl in H; unfold GET in H;
          injection H as <-; eexists _, _; split; [reflexivity|];
          intros d Hd; try discriminate Hd; injection Hd as <-;
          repeat first [ apply NoDup_setitem | apply NoDup_set_if_str
                       | apply NoDup_set_if_list ];
          apply distinct_NoDup; reflexivity
      end. }
  destruct Hshape as (path & given & -> & Hnodup).
  repeat split.
  - destruct given as [[|x d]|]; discriminate.
  - intros p Hp. destruct given as [d|]; [|discriminate Hp].
    apply params_Route_init in Hp. destruct Hp as [-> _]. apply Hnodup. reflexivity.
Qed.

(** X20.  [get_recommendations] raises [RuntimeError] as soon as one of the
    arguments it stores is [None] (the loop that is to drop them changes the
    dict it iterates over); when none is, all 46 are sent. *)
Theorem get_recommendations_route (kwargs : string -> Json) :
  route (get_recommendations kwargs) =
  if forallb (fun key => is_not_None (kwargs key)) RECOMMENDATION_KEYS
  then Returned (Route_init "GET" "recommendations"
                   (Some (map (fun key => (key, kwargs key)) RECOMMENDATION_KEYS)))
  else Raised (RuntimeError "dictionary changed size during iteration").
Proof. apply route_get_recommendations. Qed.

(** X21.  [target_valence] is accepted by [get_recommendations] and never sent:
    two calls that differ in nothing else build the same route or raise the
    same exception. *)
Theorem get_recommendations_drops_target_valence (kwargs kwargs' : string -> Json) :
  (forall key, key <> "target_valence" -> kwargs key = kwargs' key) ->
  route (get_recommendations kwargs) = route (get_recommendations kwargs').
Proof.
  intros Hsame. rewrite !route_get_recommendations.
  assert (Hkeys : forall key, In key RECOMMENDATION_KEYS -> kwargs key = kwargs' key).
  { intros key Hin. apply Hsame. intros ->. revert Hin.
    assert (Hno : existsb (String.eqb "target_valence") RECOMMENDATION_KEYS = false)
      by (vm_compute; reflexivity).
    intros Hin. assert (existsb (String.eqb "target_valence") RECOMMENDATION_KEYS = true)
      by (apply existsb_exists; eexists; split; [exact Hin|apply String.eqb_refl]).
    congruence. }
  rewrite (map_ext_in _ (fun key => (key, kwargs' key)) RECOMMENDATION_KEYS)
    by (intros key Hin; rewrite (Hkeys key Hin); reflexivity).
  rewrite (forallb_ext_in _ (fun key => is_not_None (kwargs' key)) RECOMMENDATION_KEYS)
    by (intros key Hin; rewrite (Hkeys key Hin); reflexivity).
  reflexivity.
Qed.

(** X22.  [get_multiple_episodes] never sends the ids it is given: its only
    parameter is [market], and without a market it sends none. *)
Theorem get_multiple_episodes_sends_no_ids (ids : list string) (market : option string) :
  exists r,
    route (get_multiple_episodes ids market) = Returned r /\
    url r = BASE ++ "episodes" /\
    (forall p, params r = Some p -> keys p = ["market"]) /\
    r = Route_init "GET" "episodes"
          (match market with
           | Some (String c s) => Some [("market", JStr (String c s))]
           | _ => None
           end).
Proof.
  eexists. split; [reflexivity|].
  destruct market as [[|c s]|]; simpl; repeat split; intros p Hp;
    try discriminate Hp; injection Hp as <-; reflexivity.
Qed.

Lemma replace_char_free (old new : ascii) (s : string) :
  old <> new -> mem_char old (replace_char old new s) = false.
Proof.
  intros Hne. induction s as [|c s IH]; simpl; [reflexivity|].
  rewrite IH, orb_false_r.
  destruct (Ascii.eqb c old) eqn:Hc.
  - apply Ascii.eqb_neq. exact Hne.
  - rewrite Ascii.eqb_sym. exact Hc.
Qed.

Lemma assoc_setitem_other (key k : string) (v : Json) (d : PARAMS) :
  key <> k -> assoc key (setitem k v d) = assoc key d.
Proof.
  intros Hne. induction d as [|[k' v'] d IH]; simpl.
  - destruct (String.eqb key k) eqn:H; [apply String.eqb_eq in H; contradiction|reflexivity].
  - destruct (String.eqb k k') eqn:Hk; simpl.
    + apply String.eqb_eq in Hk. subst k'.
      destruct (String.eqb key k) eqn:H; [apply String.eqb_eq in H; contradiction|reflexivity].
    + rewrite IH. reflexivity.
Qed.

Lemma assoc_set_if_str_other key k arg d :
  key <> k -> assoc key (set_if_str k arg d) = assoc key d.
Proof. intros H. destruct arg as [[|c s]|]; simpl; auto using assoc_setitem_other. Qed.

(** X23.  [search] sends the query with every space turned into a plus sign:
    the [query] parameter has the length of the text given and no space in
    it, whatever the other arguments are. *)
Theorem search_query_has_no_space
    (query _type : string) (market : option string) (limit offset : option Z)
    (include_external : option string) :
  exists r p,
    route (search query _type market limit offset include_external) = Returned r /\
    params r = Some p /\
    assoc "query" p = Some (JStr (replace_char " " "+" query)) /\
    mem_char " " (replace_char " " "+" query) = false /\
    String.length (replace_char " " "+" query) = String.length query.
Proof.
  set (D := set_if_str "include_external" include_external
              (setitem "offset" (int_or_None offset)
              (setitem "limit" (int_or_None limit)
              (set_if_str "market" market
                 [("query", JStr (replace_char " " "+" query)); ("type", JStr _type)])))).
  assert (Hquery : assoc "query" D = Some (JStr (replace_char " " "+" query))).
  { unfold D.
    rewrite assoc_set_if_str_other, !assoc_setitem_other, assoc_set_if_str_other
      by discriminate.
    reflexivity. }
  exists (Route_init "GET" "search" (Some D)), D.
  split; [reflexivity|]. split; [|split; [|split]].
  - unfold Route_init. simpl params.
    destruct D; [discriminate Hquery|reflexivity].
  - exact Hquery.
  - apply replace_char_free. discriminate.
  - clear. induction query as [|c q IH]; simpl; [reflexivity|]. rewrite IH. reflexivity.
Qed.

(** X24.  Before [authorize()] every endpoint method fails without sending
    anything: with [NotAuthorized], or, for [get_recommendations] with a
    [None] among its arguments, with the [RuntimeError] of its own loop. *)
Theorem endpoints_before_authorize
    (fuel : nat) (e : Endpoint) (c : HTTPClient) (w : World) :
  _session c = None ->
  (run E (invoke (S fuel) e c) w =
     (Completed (Raised (NotAuthorized "You need to authorize first before making any requests")),
      c, w) \/
   (exists kwargs key,
      e = get_recommendations kwargs /\ In key RECOMMENDATION_KEYS /\ kwargs key = JNull) /\
   run E (invoke (S fuel) e c) w =
     (Completed (Raised (RuntimeError "dictionary changed size during iteration")), c, w)).
Proof.
  intros Hs.
  assert (Hna : forall r, run E (request (S fuel) r c) w =
     (Completed (Raised (NotAuthorized "You need to authorize first before making any requests")),
      c, w)).
  { intros r. simpl. unfold request_body. reduce. rewrite Hs. reflexivity. }
  unfold invoke. rewrite run_bind.
  destruct e; try (left; apply Hna).
  change (run E (lift (route (get_recommendations kwargs)) c) w)
    with (Completed (route (get_recommendations kwargs)), c, w).
  rewrite route_get_recommendations.
  destruct (forallb _ RECOMMENDATION_KEYS) eqn:Hall; [left; apply Hna|].
  right. split; [|reflexivity].
  exists kwargs.
  assert (Hex : existsb (fun key => negb (is_not_None (kwargs key))) RECOMMENDATION_KEYS = true).
  { clear -Hall. induction RECOMMENDATION_KEYS as [|k l IH]; simpl in *; [discriminate|].
    destruct (is_not_None (kwargs k)); simpl in *; auto. }
  apply existsb_exists in Hex. destruct Hex as (key & Hin & Hkey).
  exists key. repeat split; auto.
  destruct (kwargs key); simpl in Hkey; try discriminate; reflexivity.
Qed.

End EndpointClaims.

(** ** The further properties on concrete runs *)

Lemma http_error_buildable_witness :
  exists text, HTTPException_init auth_error 400 None = Returned text.
Proof.
  apply (proj2 (proj1 (http_error_buildable auth_error 400 None))).
  exists [("error", JStr "invalid_client");
          ("error_description", JStr "Invalid client secret")],
         (JStr "invalid_client").
  split; [reflexivity|split; [reflexivity|left; discriminate]].
Defined.

Lemma authorize_non_200_keeps_token_witness :
  let after := run (constant unauthorized ok_track T0) (authorize client_T1) genesis in
  _access_token (client after) = Some (JStr "T1") /\
  _expires_at (client after) = Some (T0 + seconds 3600).
Proof.
  apply (authorize_non_200_keeps_token (constant unauthorized ok_track T0) client_T1 genesis).
  discriminate.
Defined.

Lemma authorize_403_and_5xx_witness :
  result (run (constant (mkResponse 403 (Some (api_error 403 "Forbidden"))) ok_track T0)
              (authorize client_T1) genesis) =
    Completed (Raised (HTTPError KHTTPException
                         "403 {'status': 403, 'message': 'Forbidden'}: Forbidden")) /\
  result (run (constant (mkResponse 503 (Some (api_error 503 "Unavailable"))) ok_track T0)
              (authorize client_T1) genesis) =
    Completed (Raised (HTTPError KServerError
                         "503 {'status': 503, 'message': 'Unavailable'}: Unavailable")).
Proof.
  split.
  - apply (proj1 (authorize_403_and_5xx
                    (constant (mkResponse 403 (Some (api_error 403 "Forbidden"))) ok_track T0)
                    client_T1 genesis (api_error 403 "Forbidden") _ eq_refl
                    ltac:(intros s H; injection H as <-; reflexivity) eq_refl eq_refl)).
    reflexivity.
  - apply (proj2 (authorize_403_and_5xx
                    (constant (mkResponse 503 (Some (api_error 503 "Unavailable"))) ok_track T0)
                    client_T1 genesis (api_error 503 "Unavailable") _ eq_refl
                    ltac:(intros s H; injection H as <-; reflexivity) eq_refl eq_refl)).
    simpl. tauto.
Defined.

Lemma authorize_unlisted_status_is_silent_witness :
  run (constant (mkResponse 429 (Some (api_error 429 "Slow down"))) ok_track T0)
      (authorize client_T1) genesis =
  (Completed (Returned tt), client_T1,
   token_sent (constant (mkResponse 429 (Some (api_error 429 "Slow down"))) ok_track T0)
     client_T1 genesis).
Proof.
  apply (authorize_unlisted_status_is_silent
           (constant (mkResponse 429 (Some (api_error 429 "Slow down"))) ok_track T0)
           client_T1 genesis (api_error 429 "Slow down") eq_refl
           ltac:(intros s H; injection H as <-; reflexivity) eq_refl).
  simpl. intros H. repeat (destruct H as [H|H]; [discriminate H|]). exact H.
Defined.

Lemma authorize_non_ascii_credentials_witness :
  let c := HTTPClient_init (String (ascii_of_nat 233) "") "secret" in
  let after := run (constant ok_T1 ok_track T0) (authorize c) genesis in
  result after = Completed (Raised UnicodeEncodeError) /\
  _session (client after) = Some {| closed := false |} /\
  calls (trace (world after)) = [].
Proof.
  intros c after.
  destruct (authorize_non_ascii_credentials (constant ok_T1 ok_track T0) c genesis eq_refl)
    as (Hres & Hclient & Hcalls & _).
  fold after in Hres, Hclient, Hcalls.
  split; [exact Hres|split; [rewrite Hclient; reflexivity|exact Hcalls]].
Defined.

Lemma authorize_200_stores_piecewise_witness :
  let E := constant (mkResponse 200 (Some (JDict [("access_token", JStr "T2")])))
                    ok_track T0 in
  let after := run E (authorize client_T1) genesis in
  result after = Completed (Raised (KeyError "expires_in")) /\
  _access_token (client after) = Some (JStr "T2") /\
  _expires_at (client after) = Some (T0 + seconds 3600).
Proof.
  intros E after.
  apply (proj2 (authorize_200_stores_piecewise E client_T1 genesis
                  (JDict [("access_token", JStr "T2")]) (KeyError "expires_in") eq_refl
                  ltac:(intros s H; injection H as <-; reflexivity) eq_refl eq_refl)
               (JStr "T2") eq_refl eq_refl).
Defined.


Lemma token_round_trip_witness :
  let E := constant ok_T1 ok_track T0 in
  let authorized := run E (authorize fresh_client) genesis in
  let answered := run E (request 1 get_track (client authorized)) (world authorized) in
  result answered = Completed (Returned track) /\
  calls (trace (world answered)) =
    [token_call fresh_client; data_call get_track (JStr "T1")].
Proof.
  apply (token_round_trip (constant ok_T1 ok_track T0) 0 get_track fresh_client genesis
           (token_body "T1" 3600) (JStr "T1") track 3600
           eq_refl ltac:(discriminate) eq_refl eq_refl eq_refl eq_refl eq_refl).
  - vm_compute. split; discriminate.
  - vm_compute. split; [discriminate|reflexivity].
  - reflexivity.
  - reflexivity.
  - simpl. lia.
Defined.

Lemma closed_session_refuses_witness :
  let c := set_session {| closed := true |} client_T1 in
  let E := constant ok_T2 ok_track (T0 + seconds 10) in
  run E (authorize c) genesis =
    (Completed (Raised (RuntimeError "Session is closed")), c, genesis) /\
  result (run E (request 1 get_track c) genesis) =
    Completed (Raised (RuntimeError "Session is closed")).
Proof.
  intros c E.
  destruct (closed_session_refuses E 0 get_track c genesis {| closed := true |}
              eq_refl eq_refl) as [Hauth Hreq].
  split.
  - apply Hauth. reflexivity.
  - apply (Hreq (T0 + seconds 3600) (JStr "T1") eq_refl eq_refl eq_refl eq_refl).
Defined.

Lemma request_body_not_json_witness :
  let x := run (constant ok_T2 (mkResponse 200 None) (T0 + seconds 10))
               (request 1 get_track client_T1) genesis in
  result x = Completed (Raised JSONError) /\
  client x = client_T1 /\
  calls (trace (world x)) = [data_call get_track (JStr "T1")] /\
  held (world x) = false.
Proof.
  apply (request_body_not_json (constant ok_T2 (mkResponse 200 None) (T0 + seconds 10))
           0 get_track client_T1 genesis {| closed := false |} (T0 + seconds 3600)
           (JStr "T1") eq_refl eq_refl eq_refl eq_refl eq_refl eq_refl eq_refl).
Defined.

Lemma request_changes_state_only_by_authorizing_witness :
  client (run (constant ok_T2 (mkResponse 403 (Some (api_error 403 "Forbidden")))
                 (T0 + seconds 10))
              (request 2 get_track client_T1) genesis) = client_T1.
Proof.
  apply (request_changes_state_only_by_authorizing
           (constant ok_T2 (mkResponse 403 (Some (api_error 403 "Forbidden")))
              (T0 + seconds 10))
           2 get_track client_T1 genesis).
  reflexivity.
Defined.

Lemma close_is_idempotent_witness :
  let E := constant ok_T2 ok_track T0 in
  let once := run E (SpotifyClient_close client_T1) genesis in
  result once = Completed (Returned tt) /\
  _session (client once) = Some {| closed := true |} /\
  _access_token (client once) = Some (JStr "T1") /\
  _expires_at (client once) = Some (T0 + seconds 3600) /\
  calls (trace (world once)) = [] /\
  run E (SpotifyClient_close (client once)) (world once) =
    (Completed (Returned tt), client once, world once).
Proof.
  apply (close_is_idempotent (constant ok_T2 ok_track T0) client_T1 genesis
           {| closed := false |} eq_refl).
Defined.

Lemma client_cannot_be_reopened_witness :
  let E := constant ok_T1 ok_track T0 in
  let started := run E (SpotifyClient_authorize (http (SpotifyClient_init "id" "secret")))
                     genesis in
  let stopped := run E (SpotifyClient_close (client started)) (world started) in
  result stopped = Completed (Returned tt) /\
  run E (SpotifyClient_authorize (client stopped)) (world stopped) =
    (Completed (Raised (RuntimeError "Session is closed")), client stopped, world stopped).
Proof.
  apply (client_cannot_be_reopened (constant ok_T1 ok_track T0) "id" "secret" genesis).
  reflexivity.
Defined.

Lemma endpoints_are_GETs_witness :
  let r := Route_init "GET" "albums/A/tracks"
             (Some [("market", JStr "US"); ("limit", JInt 20); ("offset", JInt 0)]) in
  method r = "GET" /\
  url r = BASE ++ path r /\
  params r <> Some [] /\
  (forall p, params r = Some p -> NoDup (keys p)).
Proof.
  apply (endpoints_are_GETs (get_album_tracks "A" (Some "US") (Some 20) (Some 0))).
  reflexivity.
Defined.

Lemma get_recommendations_drops_target_valence_witness :
  route (get_recommendations (fun _ => JInt 1)) =
  route (get_recommendations
           (fun key => if String.eqb key "target_valence" then JNull else JInt 1)).
Proof.
  apply get_recommendations_drops_target_valence.
  intros key Hkey. destruct (String.eqb_spec key "target_valence") as [Heq|Hne].
  - contradiction.
  - reflexivity.
Defined.

Lemma get_multiple_episodes_sends_no_ids_witness :
  route (get_multiple_episodes ["e1"; "e2"] None) =
  Returned (Route_init "GET" "episodes" None).
Proof.
  destruct (get_multiple_episodes_sends_no_ids ["e1"; "e2"] None) as (r & Hr & _ & _ & Heq).
  rewrite Hr, Heq. reflexivity.
Defined.

Lemma endpoints_before_authorize_witness :
  run (constant ok_T1 ok_track T0) (invoke 1 (Endpoints.get_track "X" None) fresh_client)
      genesis =
  (Completed (Raised (NotAuthorized "You need to authorize first before making any requests")),
   fresh_client, genesis).
Proof.
  destruct (endpoints_before_authorize (constant ok_T1 ok_track T0) 0
              (Endpoints.get_track "X" None) fresh_client genesis eq_refl)
    as [H|[(kwargs & key & He & _) _]].
  - exact H.
  - discriminate He.
Defined.

Lemma lock_lost_after_401_witness :
  let x := run (expired_once (T0 + seconds 10)) (request 2 get_track client_T1) genesis in
  requests (world x) = 1%nat /\
  ((exists e, result x = Completed (Raised e) /\ held (world x) = false) \/
   (result x = Blocked /\ held (world x) = true /\
    forall fuel' route' c',
      let y := run (expired_once (T0 + seconds 10)) (request (S fuel') route' c') (world x) in
      (forall d, result y <> Completed (Returned d)) /\
      requests (world y) = requests (world x) /\
      held (world y) = true)).
Proof.
  apply (lock_lost_after_401 (expired_once (T0 + seconds 10)) 0 get_track client_T1
           genesis {| closed := false |} (T0 + seconds 3600) (JStr "T1")
           (api_error 401 "The access token expired")
           eq_refl eq_refl eq_refl eq_refl eq_refl
           ltac:(intros H; vm_compute in H; discriminate H) eq_refl eq_refl).
Defined.
